(** * Resume classification backend: extraction heuristics and ranking

    A shallow embedding of [backend/utils.py] (the field extractors) and of
    the post-extraction steps of [predict_resume] in [backend/main.py]
    (feature encoding, role-label normalisation, top-3 ranking and the
    recommendation tier), with the properties of the design document
    stated and settled against them.

    Modelling conventions.
    - Text is a [string] of 8-bit characters and stands for a Python [str]
      made of ASCII characters (code points below 128); the character
      classes below are Python's on that range.
    - Probabilities and confidences are finite floats; they are modelled
      by the rationals they denote ([Q]), compared with [Qle_bool] and
      [Qlt].  A float literal of the code is the rational its float
      denotes: 0.8 is 3602879701896397 / 2^52 (just above 4/5) and 0.6 is
      5404319552844595 / 2^53 (just below 3/5).
    - numpy's [argsort] is not code of this repository and its default
      sort kind leaves the order of equal values open: its result is an
      argument of the ranking, constrained by [is_argsort].
    - Python exceptions are values of [exn]; fallible code lives in the
      error monad [res]. *)

From Stdlib Require Import QArith Ascii String.
From stdpp Require Import base gmap sets list strings sorting.

Close Scope Q_scope.

(** ** Exceptions and the error monad *)

Inductive exn : Type :=
| IndexError
| ValueError
| KeyError.

Inductive res (A : Type) : Type :=
| Ok (a : A)
| Raise (e : exn).

Arguments Ok {A} a.
Arguments Raise {A} e.

#[global] Instance res_ret : MRet res := λ A a, Ok a.
#[global] Instance res_bind : MBind res := λ A B f m,
  match m with
  | Ok a => f a
  | Raise e => Raise e
  end.

(** [l[i]] on a Python list: raises [IndexError] out of range. *)
Definition getitem {A} (l : list A) (i : nat) : res A :=
  match l !! i with
  | Some a => Ok a
  | None => Raise IndexError
  end.

(** ** Characters *)

Module Char.

Definition code (c : ascii) : N := N_of_ascii c.

Definition in_range (lo hi : N) (c : ascii) : bool :=
  ((lo <=? code c) && (code c <=? hi))%N.

Definition is_upper (c : ascii) : bool := in_range 65 90 c.
Definition is_lower (c : ascii) : bool := in_range 97 122 c.
Definition is_digit (c : ascii) : bool := in_range 48 57 c.

(** [str.isalpha] on ASCII; these are also the cased characters. *)
Definition is_alpha (c : ascii) : bool := is_upper c || is_lower c.

(** The regex class [\w]. *)
Definition is_word (c : ascii) : bool :=
  is_alpha c || is_digit c || Ascii.eqb c "_"%char.

(** Python's whitespace on ASCII (used by [str.strip] and by [\s]):
    TAB, LF, VT, FF, CR, the separators 0x1c-0x1f, and space. *)
Definition is_space (c : ascii) : bool :=
  in_range 9 13 c || in_range 28 32 c.

Definition to_lower (c : ascii) : ascii :=
  if is_upper c then ascii_of_N (code c + 32) else c.

Definition to_upper (c : ascii) : ascii :=
  if is_lower c then ascii_of_N (code c - 32) else c.

Definition newline : ascii := "010"%char.

End Char.

(** ** Python string methods *)

Module Str.

Fixpoint lower (s : string) : string :=
  match s with
  | EmptyString => EmptyString
  | String c s' => String (Char.to_lower c) (lower s')
  end.

(** [str.title]: a cased character is upper-cased when the character
    before it is not cased, and lower-cased otherwise. *)
Fixpoint title_go (previous_is_cased : bool) (s : string) : string :=
  match s with
  | EmptyString => EmptyString
  | String c s' =>
      String (if previous_is_cased then Char.to_lower c else Char.to_upper c)
             (title_go (Char.is_alpha c) s')
  end.

Definition title (s : string) : string := title_go false s.

Fixpoint lstrip (s : string) : string :=
  match s with
  | EmptyString => EmptyString
  | String c s' => if Char.is_space c then lstrip s' else s
  end.

Definition rstrip (s : string) : string := String.rev (lstrip (String.rev s)).

Definition strip (s : string) : string := rstrip (lstrip s).

(** Splitting at every character of a class: [s.split(c)] for a
    one-character separator and [re.split] for a character class. *)
Fixpoint split_on (p : ascii → bool) (s : string) : list string :=
  match s with
  | EmptyString => [EmptyString]
  | String c s' =>
      if p c then EmptyString :: split_on p s'
      else match split_on p s' with
           | u :: us => String c u :: us
           | [] => [String c EmptyString]
           end
  end.

Definition split (sep : ascii) (s : string) : list string :=
  split_on (Ascii.eqb sep) s.

(** [needle in hay]. *)
Fixpoint contains (needle hay : string) : bool :=
  String.prefix needle hay ||
  match hay with
  | EmptyString => false
  | String _ hay' => contains needle hay'
  end.

(** The position-wise core of [s.rsplit(sep, 1)]: the text before and
    after the last occurrence of [sep]. *)
Fixpoint rsplit1_go (sep : ascii) (s : string) : option (string * string) :=
  match s with
  | EmptyString => None
  | String c s' =>
      match rsplit1_go sep s' with
      | Some (h, t) => Some (String c h, t)
      | None => if Ascii.eqb c sep then Some (EmptyString, s') else None
      end
  end.

Definition rsplit1 (sep : ascii) (s : string) : list string :=
  match rsplit1_go sep s with
  | Some (h, t) => [h; t]
  | None => [s]
  end.

(** [", ".join(l)]. *)
Fixpoint join (sep : string) (l : list string) : string :=
  match l with
  | [] => EmptyString
  | [x] => x
  | x :: l' => x +:+ sep +:+ join sep l'
  end.

(** The number of occurrences of a character. *)
Fixpoint count_char (c : ascii) (s : string) : nat :=
  match s with
  | EmptyString => 0
  | String a s' => (if Ascii.eqb a c then 1 else 0) + count_char c s'
  end.

(** Every character is in the class. *)
Fixpoint all_chars (p : ascii → bool) (s : string) : bool :=
  match s with
  | EmptyString => true
  | String c s' => p c && all_chars p s'
  end.

(** [n * s]. *)
Fixpoint repeat (n : nat) (s : string) : string :=
  match n with
  | O => EmptyString
  | S n' => s +:+ repeat n' s
  end.

(** [s[:n]]. *)
Fixpoint take (n : nat) (s : string) : string :=
  match n, s with
  | S n', String c s' => String c (take n' s')
  | _, _ => EmptyString
  end.

(** [int(s)] for the strings the experience pattern captures, which are
    made of decimal digits: the number they write, and [ValueError] for a
    string of more than 4300 digits (the interpreter's default limit on
    the conversion of integer strings).  On any other string the model
    raises [ValueError]. *)
Fixpoint int_go (acc : Z) (s : string) : res Z :=
  match s with
  | EmptyString => Ok acc
  | String c s' =>
      if Char.is_digit c
      then int_go (10 * acc + Z.of_N (Char.code c - 48))%Z s'
      else Raise ValueError
  end.

Definition int_max_str_digits : nat := 4300.

Definition int (s : string) : res Z :=
  match s with
  | EmptyString => Raise ValueError
  | _ =>
      if int_max_str_digits <? String.length s
      then Raise ValueError
      else int_go 0%Z s
  end.

End Str.

(** ** Regular expressions

    A backtracking matcher with Python's priorities (leftmost match,
    alternatives left to right, greedy repeats longest first, the lazy
    option shortest first).  It covers the constructs the patterns of
    [utils.py] use. *)

Module Re.

Inductive regex : Type :=
| Eps
| Chr (c : ascii)                (* a literal character *)
| Cls (p : ascii → bool)         (* a character class *)
| Bnd                            (* \b *)
| Cat (r1 r2 : regex)
| Alt (r1 r2 : regex)            (* r1|r2 *)
| Opt (r : regex)                (* r? *)
| OptLazy (r : regex)            (* r?? *)
| Star (r : regex)               (* r* *)
| Grp (n : nat) (r : regex).     (* the n-th capturing group *)

Definition Plus (r : regex) : regex := Cat r (Star r).

Fixpoint Times (n : nat) (r : regex) : regex :=
  match n with
  | O => Eps
  | S n' => Cat r (Times n' r)
  end.

Fixpoint Lit (s : string) : regex :=
  match s with
  | EmptyString => Eps
  | String c s' => Cat (Chr c) (Lit s')
  end.

Definition Seq (rs : list regex) : regex := foldr Cat Eps rs.

(** The matcher's position: the character before it (for [\b]), the
    text after it, and the groups captured so far (latest first). *)
Record mstate : Type := MState {
  ms_prev : option ascii;
  ms_rest : string;
  ms_groups : list (nat * string)
}.

Definition consumed (s0 : string) (e : mstate) : string :=
  Str.take (String.length s0 - String.length (ms_rest e)) s0.

Definition at_boundary (st : mstate) : bool :=
  xorb (from_option Char.is_word false (ms_prev st))
       (match ms_rest st with
        | String c _ => Char.is_word c
        | EmptyString => false
        end).

Definition eat (p : ascii → bool) (st : mstate)
    (k : mstate → option mstate) : option mstate :=
  match ms_rest st with
  | String a s' =>
      if p a then k (MState (Some a) s' (ms_groups st)) else None
  | EmptyString => None
  end.

Definition or_else (a : option mstate) (b : option mstate) : option mstate :=
  match a with
  | Some e => Some e
  | None => b
  end.

Fixpoint rmatch (r : regex) (st : mstate) (k : mstate → option mstate)
    {struct r} : option mstate :=
  match r with
  | Eps => k st
  | Chr c => eat (Ascii.eqb c) st k
  | Cls p => eat p st k
  | Bnd => if at_boundary st then k st else None
  | Cat r1 r2 => rmatch r1 st (λ st', rmatch r2 st' k)
  | Alt r1 r2 => or_else (rmatch r1 st k) (rmatch r2 st k)
  | Opt r1 => or_else (rmatch r1 st k) (k st)
  | OptLazy r1 => or_else (k st) (rmatch r1 st k)
  | Star r1 =>
      (fix loop (fuel : nat) (st0 : mstate) {struct fuel} : option mstate :=
         match fuel with
         | O => k st0
         | S fuel' =>
             or_else
               (rmatch r1 st0 (λ st',
                  if String.length (ms_rest st') <? String.length (ms_rest st0)
                  then loop fuel' st' else None))
               (k st0)
         end) (String.length (ms_rest st)) st
  | Grp n r1 =>
      rmatch r1 st (λ st',
        k (MState (ms_prev st') (ms_rest st')
                  ((n, consumed (ms_rest st) st') :: ms_groups st')))
  end.

(** What a pattern may match: [matches r st st'] when [r] can take the
    matcher from position [st] to position [st']. *)
Inductive matches : regex → mstate → mstate → Prop :=
| M_Eps st : matches Eps st st
| M_Chr c a s' st :
    ms_rest st = String a s' → Ascii.eqb c a = true →
    matches (Chr c) st (MState (Some a) s' (ms_groups st))
| M_Cls p a s' st :
    ms_rest st = String a s' → p a = true →
    matches (Cls p) st (MState (Some a) s' (ms_groups st))
| M_Bnd st : at_boundary st = true → matches Bnd st st
| M_Cat r1 r2 st st' st'' :
    matches r1 st st' → matches r2 st' st'' → matches (Cat r1 r2) st st''
| M_Alt_l r1 r2 st st' : matches r1 st st' → matches (Alt r1 r2) st st'
| M_Alt_r r1 r2 st st' : matches r2 st st' → matches (Alt r1 r2) st st'
| M_Opt_some r st st' : matches r st st' → matches (Opt r) st st'
| M_Opt_none r st : matches (Opt r) st st
| M_OptLazy_some r st st' : matches r st st' → matches (OptLazy r) st st'
| M_OptLazy_none r st : matches (OptLazy r) st st
| M_Star_nil r st : matches (Star r) st st
| M_Star_cons r st st' st'' :
    matches r st st' → matches (Star r) st' st'' → matches (Star r) st st''
| M_Grp n r st st' :
    matches r st st' →
    matches (Grp n r) st
      (MState (ms_prev st') (ms_rest st')
              ((n, consumed (ms_rest st) st') :: ms_groups st')).

(** A match found by scanning: the text skipped before it, the text
    matched, and the position after it. *)
Record found : Type := Found {
  f_skipped : string;
  f_text : string;
  f_end : mstate
}.

Definition match_at (r : regex) (prev : option ascii) (s : string)
    : option mstate :=
  rmatch r (MState prev s []) Some.

(** [re.search] from a position. *)
Fixpoint search (r : regex) (prev : option ascii) (s : string)
    : option found :=
  match match_at r prev s with
  | Some e => Some (Found EmptyString (consumed s e) e)
  | None =>
      match s with
      | EmptyString => None
      | String c s' =>
          match search r (Some c) s' with
          | Some f => Some (Found (String c (f_skipped f)) (f_text f) (f_end f))
          | None => None
          end
      end
  end.

Fixpoint lookup_group (n : nat) (gs : list (nat * string)) : string :=
  match gs with
  | [] => EmptyString
  | (m, t) :: gs' => if Nat.eqb m n then t else lookup_group n gs'
  end.

Definition group (n : nat) (f : found) : string :=
  match n with
  | O => f_text f
  | _ => lookup_group n (ms_groups (f_end f))
  end.

Fixpoint count_groups (r : regex) : nat :=
  match r with
  | Eps | Chr _ | Cls _ | Bnd => 0
  | Cat r1 r2 | Alt r1 r2 => count_groups r1 + count_groups r2
  | Opt r1 | OptLazy r1 | Star r1 => count_groups r1
  | Grp _ r1 => S (count_groups r1)
  end.

(** The scan shared by [findall] and [sub]: the successive
    non-overlapping matches, left to right.  The patterns of this
    program match at least one character; after an empty match the scan
    moves on by one character. *)
Fixpoint findall_go (fuel : nat) (r : regex) (pick : found → string)
    (prev : option ascii) (s : string) : list string :=
  match fuel with
  | O => []
  | S fuel' =>
      match search r prev s with
      | None => []
      | Some f =>
          pick f ::
          match f_text f, ms_rest (f_end f) with
          | EmptyString, EmptyString => []
          | EmptyString, String c s' => findall_go fuel' r pick (Some c) s'
          | _, rest => findall_go fuel' r pick (ms_prev (f_end f)) rest
          end
      end
  end.

(** [re.findall]: the whole matches for a pattern without groups, the
    first group's text for a pattern with one group. *)
Definition findall (r : regex) (s : string) : list string :=
  findall_go (S (String.length s)) r
    (group (match count_groups r with O => 0 | _ => 1 end)) None s.

Fixpoint sub_go (fuel : nat) (r : regex) (repl : found → string)
    (prev : option ascii) (s : string) : string :=
  match fuel with
  | O => s
  | S fuel' =>
      match search r prev s with
      | None => s
      | Some f =>
          f_skipped f +:+ repl f +:+
          match f_text f, ms_rest (f_end f) with
          | EmptyString, EmptyString => EmptyString
          | EmptyString, String c s' =>
              String c (sub_go fuel' r repl (Some c) s')
          | _, rest => sub_go fuel' r repl (ms_prev (f_end f)) rest
          end
      end
  end.

(** [re.sub(r, repl, s)]. *)
Definition sub (r : regex) (repl : found → string) (s : string) : string :=
  sub_go (S (String.length s)) r repl None s.

(** The truth value of [re.search(r, s)]. *)
Definition has_match (r : regex) (s : string) : bool :=
  match search r None s with
  | Some _ => true
  | None => false
  end.

End Re.

(** ** [utils.py]: the field extractors *)

Module Utils.

Import Re.

Definition digit : regex := Cls Char.is_digit.
Definition space : regex := Cls Char.is_space.
Definition one_of (cs : string) (c : ascii) : bool :=
  Str.contains (String c EmptyString) cs.

(** [\b[\w.+-]+@[\w.-]+\.\w+] *)
Definition email_re : regex :=
  Seq [Bnd;
       Plus (Cls (λ c, Char.is_word c || one_of ".+-" c));
       Chr "@";
       Plus (Cls (λ c, Char.is_word c || one_of ".-" c));
       Chr ".";
       Plus (Cls Char.is_word)].

(** [[-\.\s]??] *)
Definition phone_sep : regex :=
  OptLazy (Cls (λ c, one_of "-." c || Char.is_space c)).

(** [(\d{3}[-\.\s]??\d{3}[-\.\s]??\d{4}|\(\d{3}\)\s*\d{3}[-\.\s]??\d{4})] *)
Definition phone_re : regex :=
  Grp 1 (Alt
    (Seq [Times 3 digit; phone_sep; Times 3 digit; phone_sep; Times 4 digit])
    (Seq [Chr "("; Times 3 digit; Chr ")"; Star space;
          Times 3 digit; phone_sep; Times 4 digit])).

(** [(\d+)\+?\s*(?:-\s*\d+)?\s*years?] *)
Definition experience_re : regex :=
  Seq [Grp 1 (Plus digit);
       Opt (Chr "+");
       Star space;
       Opt (Seq [Chr "-"; Star space; Plus digit]);
       Star space;
       Lit "year";
       Opt (Chr "s")].

(** [r'\b' + re.escape(word) + r'\b'] *)
Definition skill_re (word : string) : regex :=
  Seq [Bnd; Lit word; Bnd].

(** [([a-z])([A-Z])] and its replacement template [\1 \2]. *)
Definition camel_re : regex :=
  Seq [Grp 1 (Cls Char.is_lower); Grp 2 (Cls Char.is_upper)].

Definition camel_repl (f : found) : string :=
  group 1 f +:+ " " +:+ group 2 f.

Definition get_email (text : string) : string :=
  let email := findall email_re text in
  match email with
  | e :: _ => e
  | [] => "Not Found"
  end.

Definition get_phone (text : string) : string :=
  let phone := findall phone_re text in
  match phone with
  | p :: _ => p
  | [] => "Not Found"
  end.

Fixpoint get_name_loop (lines : list string) : string :=
  match lines with
  | [] => "Not Found"
  | line :: lines' =>
      match Str.strip line with
      | EmptyString => get_name_loop lines'
      | _ =>
          let name := Str.title (Str.strip line) in
          let name := sub camel_re camel_repl name in
          name
      end
  end.

Definition get_name (text : string) : string :=
  let lines := Str.split Char.newline text in
  get_name_loop lines.

Definition degrees : list string :=
  ["bachelor"; "master"; "phd"; "diploma"; "degree"; "bsc"; "msc";
   "ba"; "ma"; "b.sc"; "m.sc"].

Definition enumerate {A} (l : list A) : list (nat * A) :=
  zip (seq 0 (length l)) l.

Definition sentence_sep (c : ascii) : bool :=
  Ascii.eqb c "." || Ascii.eqb c Char.newline.

(** The inner loop of [get_education]; it stops at the first unit that
    qualifies. *)
Fixpoint scan_sentences (degree : string) (sentences_original : list string)
    (sentences_lower : list (nat * string)) (education_info : list string)
    : res (list string) :=
  match sentences_lower with
  | [] => Ok education_info
  | (i, sentence) :: rest =>
      if Str.contains degree sentence && (String.length sentence <? 200)
      then
        original ← getitem sentences_original i;
        let edu := Str.title (Str.strip original) in
        Ok (education_info ++ [edu])
      else scan_sentences degree sentences_original rest education_info
  end.

(** The outer loop of [get_education]; it stops at the first keyword
    that occurs in the text. *)
Fixpoint scan_degrees (text_lower original_text : string)
    (ds : list string) (education_info : list string) : res (list string) :=
  match ds with
  | [] => Ok education_info
  | degree :: ds' =>
      if Str.contains degree text_lower
      then
        let sentences_lower := Str.split_on sentence_sep text_lower in
        let sentences_original := Str.split_on sentence_sep original_text in
        scan_sentences degree sentences_original
                       (enumerate sentences_lower) education_info
      else scan_degrees text_lower original_text ds' education_info
  end.

Definition get_education (text : string) : res string :=
  let text_lower := Str.lower text in
  let original_text := text in
  education_info ← scan_degrees text_lower original_text degrees [];
  Ok (match education_info with
      | e :: _ => e
      | [] => "Not Found"
      end).

Definition get_experience (text : string) : res Z :=
  let exp := findall experience_re (Str.lower text) in
  match exp with
  | e :: _ => Str.int e
  | [] => Ok 0%Z
  end.

Definition keywords : list string :=
  ["python"; "java"; "javascript"; "sql"; "r"; "c++"; "c#";
   "machine learning"; "deep learning"; "data analysis"; "statistics";
   "tableau"; "power bi"; "excel"; "aws"; "azure"; "cloud";
   "git"; "docker"; "kubernetes"; "tensorflow"; "pytorch";
   "html"; "css"; "react"; "angular"; "node.js"; "flask"; "django"].

Definition get_skills (text : string) : string :=
  let text_lower := Str.lower text in
  let found := List.filter (λ word, has_match (skill_re word) text_lower)
                           keywords in
  match found with
  | [] => "None"
  | _ => Str.join ", " found
  end.

(** The dictionary [extract_resume_info] returns, with its fixed keys. *)
Record resume_info : Type := ResumeInfo {
  name : string;
  email : string;
  phone : string;
  education : string;
  experience_years : Z;
  skills : string
}.

Definition extract_resume_info (text : string) : res resume_info :=
  let name := get_name text in
  let email := get_email text in
  let phone := get_phone text in
  education ← get_education text;
  experience_years ← get_experience text;
  let skills := get_skills text in
  Ok (ResumeInfo name email phone education experience_years skills).

End Utils.

(** ** [main.py]: the steps of [predict_resume] after extraction *)

Module Main.

Import Utils.

(** *** Step 4: feature encoding

    The three transformers are artifacts loaded at start-up; they are
    parameters here.  Each takes one sample and may raise. *)
Section FeatureEncoding.

Variable experience_scaler : Z → res Q.
Variable education_encoder : string → res Z.
Variable skills_vectorizer : string → res (list Q).

(** The value handed to [education_encoder.transform]. *)
Definition education_input (candidate_info : resume_info) : string :=
  if decide (education candidate_info ≠ "Not Found")
  then education candidate_info else "not found".

(** [X_education]: the single education column.  Only [ValueError]
    is caught. *)
Definition X_education (candidate_info : resume_info) : res (list (list Z)) :=
  match education_encoder (education_input candidate_info) with
  | Ok code => Ok [[code]]
  | Raise ValueError => Ok [[0%Z]]
  | Raise e => Raise e
  end.

(** The value handed to [skills_vectorizer.transform]. *)
Definition skills_input (candidate_info : resume_info) : string :=
  if decide (skills candidate_info ≠ "None")
  then skills candidate_info else "".

Definition X_skills (candidate_info : resume_info) : res (list (list Q)) :=
  row ← skills_vectorizer (skills_input candidate_info);
  Ok [row].

Definition X_experience (candidate_info : resume_info) : res (list (list Q)) :=
  x ← experience_scaler (experience_years candidate_info);
  Ok [[x]].

(** [hstack]: the blocks side by side, row by row. *)
Definition hstack3 (a : list (list Q)) (b : list (list Z))
    (c : list (list Q)) : list (list Q) :=
  zip_with (λ ab c, ab ++ c)
           (zip_with (λ a b, a ++ (inject_Z <$> b)) a b) c.

Definition resume_vectorized (candidate_info : resume_info)
    : res (list (list Q)) :=
  x_experience ← X_experience candidate_info;
  x_education ← X_education candidate_info;
  x_skills ← X_skills candidate_info;
  Ok (hstack3 x_experience x_education x_skills).

End FeatureEncoding.

(** *** Step 5: role-label clean-up *)

(** [l[0]] for the list [rsplit] returns, which is never empty. *)
Definition first (l : list string) : string :=
  match l with
  | x :: _ => x
  | [] => EmptyString
  end.

Definition normalize_role (role_raw : string) : string :=
  if Str.contains "_" role_raw
  then first (Str.rsplit1 "_"%char role_raw)
  else role_raw.

(** *** Step 6: the suitability flag *)

Definition is_suitable (suitability_prediction : string) : bool :=
  Str.contains "select" (Str.lower suitability_prediction)
  || Str.contains "hire" (Str.lower suitability_prediction).

(** *** The top-3 role matches *)

Record RoleMatch : Type := mkRoleMatch {
  role : string;
  confidence : Q
}.

(** [a.argsort()] is numpy's: it returns the indices of [a] arranged
    so that the values ascend, and its default sort kind does not say in
    which order equal values come.  [is_argsort a sorted]: [sorted] is a
    result it may return for [a]. *)
Definition is_argsort (a : list Q) (sorted : list nat) : Prop :=
  sorted ≡ₚ seq 0 (length a) ∧
  StronglySorted (λ i j, (nth i a 0 <= nth j a 0)%Q) sorted.

#[global] Instance Qle_dec (x y : Q) : Decision (x <= y)%Q :=
  match Qlt_le_dec y x with
  | left H => right (Qlt_not_le _ _ H)
  | right H => left H
  end.

#[global] Instance is_argsort_dec (a : list Q) (sorted : list nat) :
  Decision (is_argsort a sorted) := and_dec _ _.

(** One such result, computed by insertion: equal values in index
    order. *)
Fixpoint insert_index (a : list Q) (i : nat) (sorted : list nat) : list nat :=
  match sorted with
  | [] => [i]
  | j :: sorted' =>
      if Qle_bool (nth j a 0%Q) (nth i a 0%Q)
      then j :: insert_index a i sorted'
      else i :: j :: sorted'
  end.

Definition stable_argsort (a : list Q) : list nat :=
  foldl (λ sorted i, insert_index a i sorted) [] (seq 0 (length a)).

(** [l[-n:]]. *)
Definition last_n {A} (n : nat) (l : list A) : list A :=
  drop (length l - n) l.

(** [role_probabilities.argsort()[-3:][::-1]], for the result [sorted]
    of [role_probabilities.argsort()]. *)
Definition top_3_indices (sorted : list nat) : list nat :=
  reverse (last_n 3 sorted).

(** The loop over [top_3_indices], threading [top_3_roles] and
    [seen_roles]; the early exit is the [break]. *)
Fixpoint top_3_loop (classes_ : list string) (role_probabilities : list Q)
    (indices : list nat) (top_3_roles : list RoleMatch)
    (seen_roles : gset string) : res (list RoleMatch) :=
  match indices with
  | [] => Ok top_3_roles
  | idx :: indices' =>
      role_raw ← getitem classes_ idx;
      let role_name := normalize_role role_raw in
      '(top_3_roles, seen_roles) ←
        (if decide (role_name ∉ seen_roles)
         then
           p ← getitem role_probabilities idx;
           Ok (top_3_roles ++ [mkRoleMatch role_name p],
               {[role_name]} ∪ seen_roles)
         else Ok (top_3_roles, seen_roles));
      if 3 <=? length top_3_roles
      then Ok top_3_roles
      else top_3_loop classes_ role_probabilities indices'
                      top_3_roles seen_roles
  end.

Definition top_3_roles (classes_ : list string)
    (role_probabilities : list Q) (sorted : list nat)
    : res (list RoleMatch) :=
  top_3_loop classes_ role_probabilities (top_3_indices sorted) [] ∅.

(** *** The recommendation text *)

(** The float literals [0.8] and [0.6], as the rationals they denote. *)
Definition float_0_8 : Q := 3602879701896397 # 4503599627370496.
Definition float_0_6 : Q := 5404319552844595 # 9007199254740992.

Definition recommendation (is_suitable : bool)
    (suitability_confidence : Q) : string :=
  if is_suitable then
    if Qle_bool float_0_8 suitability_confidence
    then "Strong candidate match."
    else if Qle_bool float_0_6 suitability_confidence
    then "Good candidate match."
    else "Review candidate properly"
  else "Not a good fit".

End Main.

(** ** Specification side

    The design document's descriptions of the extractors and of the
    ranking, written out as definitions to compare the code with, and the
    predicates the properties below are stated with. *)

Module Described.

Import Utils Main.

(** The first line with something other than whitespace on it. *)
Definition first_nonblank_line (text : string) : option string :=
  List.find (λ line, negb (String.eqb (Str.strip line) ""))
            (Str.split Char.newline text).

(** The first degree keyword, in list order, that occurs in the
    lower-cased text. *)
Definition first_keyword (text : string) : option string :=
  List.find (λ degree, Str.contains degree (Str.lower text)) degrees.

(** A unit qualifies for a keyword when it contains it (whatever the
    case of its letters) and is shorter than 200 characters. *)
Definition qualifies (degree unit : string) : bool :=
  Str.contains degree (Str.lower unit) && (String.length unit <? 200).

(** The first unit (split on [.] or newline) that qualifies. *)
Definition first_unit (degree text : string) : option string :=
  List.find (qualifies degree) (Str.split_on sentence_sep text).

(** Education as the document words it: that unit, title-cased. *)
Definition education_described (text : string) : string :=
  match first_keyword text with
  | None => "Not Found"
  | Some degree =>
      match first_unit degree text with
      | Some unit => Str.title unit
      | None => "Not Found"
      end
  end.

(** The same with the unit's surrounding whitespace removed first. *)
Definition education_trimmed (text : string) : string :=
  match first_keyword text with
  | None => "Not Found"
  | Some degree =>
      match first_unit degree text with
      | Some unit => Str.title (Str.strip unit)
      | None => "Not Found"
      end
  end.

(** The role match a class index stands for. *)
Definition entry (classes_ : list string) (role_probabilities : list Q)
    (idx : nat) : RoleMatch :=
  mkRoleMatch (normalize_role (nth idx classes_ ""))
              (nth idx role_probabilities 0%Q).

(** Keeping the first occurrence of each role name not seen before. *)
Fixpoint keep_first (seen : gset string) (l : list RoleMatch)
    : list RoleMatch :=
  match l with
  | [] => []
  | m :: l' =>
      if decide (role m ∈ seen) then keep_first seen l'
      else m :: keep_first ({[role m]} ∪ seen) l'
  end.

(** The distinct normalized role names of a classifier. *)
Definition distinct_roles (classes_ : list string) : list string :=
  remove_dups (normalize_role <$> classes_).

(** Visit order [i] before [j]: descending probability, equal
    probabilities in class order ([tie_class_order]) or in reverse class
    order ([tie_reverse_order]). *)
Definition tie_class_order (p : list Q) (i j : nat) : Prop :=
  (nth j p 0 < nth i p 0)%Q ∨ ((nth j p 0 == nth i p 0)%Q ∧ i < j).

Definition tie_reverse_order (p : list Q) (i j : nat) : Prop :=
  (nth j p 0 < nth i p 0)%Q ∨ ((nth j p 0 == nth i p 0)%Q ∧ j < i).

(** No lower-case letter is directly followed by an upper-case one. *)
Fixpoint camel_free (s : string) : bool :=
  match s with
  | String a (String b _ as s') =>
      negb (Char.is_lower a && Char.is_upper b) && camel_free s'
  | _ => true
  end.

(** Ascending by value, equal values by ascending index. *)
Definition ascending (p : list Q) (i j : nat) : Prop :=
  tie_reverse_order p j i.

(** The number of digits [get_experience] hands to [int], 0 when the
    pattern has no match. *)
Definition years_digits (text : string) : nat :=
  match Re.findall experience_re (Str.lower text) with
  | e :: _ => String.length e
  | [] => 0
  end.

End Described.

(** ** Sample inputs *)

Definition sample_resume : string :=
  "John Smith" +:+ String Char.newline
  ("john.smith@email.com" +:+ String Char.newline
  ("555-123-4567" +:+ String Char.newline
  ("Bachelor of Science in Computer Science." +:+ String Char.newline
   "5 years experience in python, sql, aws."))).

Definition plain_resume : string :=
  "  " +:+ String Char.newline ("jane doe" +:+ String Char.newline "hello").

Definition long_resume : string :=
  "phd " +:+ Str.repeat 200 "x" +:+ String Char.newline "diploma in arts".

Definition sample_scaler (years : Z) : res Q := Ok (inject_Z years / 10)%Q.

Definition sample_encoder (category : string) : res Z :=
  if decide (category = "not found") then Ok 2%Z
  else if decide (category = "Bachelor Of Science") then Ok 1%Z
  else Raise ValueError.

Definition blind_encoder (category : string) : res Z := Raise ValueError.

Definition sample_vectorizer (skills : string) : res (list Q) :=
  Ok [if Str.contains "python" skills then 1%Q else 0%Q;
      if Str.contains "None" skills then 1%Q else 0%Q].

Definition unknown_info : Utils.resume_info :=
  Utils.ResumeInfo "Jane Doe" "Not Found" "Not Found" "Phd In Physics" 0 "None".

Definition empty_info : Utils.resume_info :=
  Utils.ResumeInfo "Jane Doe" "Not Found" "Not Found" "Not Found" 0 "None".

Definition four_classes : list string :=
  ["A_select"; "A_reject"; "B_select"; "C_select"].

Definition four_probabilities : list Q :=
  [4 # 10; 3 # 10; 2 # 10; 1 # 10]%Q.

Definition tied_probabilities : list Q :=
  [1 # 4; 1 # 4; 1 # 4; 1 # 4; 0]%Q.

Definition long_years : string := Str.repeat 4301 "9" +:+ " years".

(** ** The rest of [main.py] and [utils.py]

    The skills tokenizer, PDF text extraction and the endpoint
    [predict_resume] as a whole, over the artifacts and the PDF reader it
    is given. *)

Module Endpoint.

Import Utils Main.

(** [skill_tokenizer] ([main.py]); [pd.isna] is false on a string. *)
Definition skill_tokenizer (text : string) : list string :=
  if decide (text = "None") then []
  else (λ skill, Str.lower (Str.strip skill)) <$> Str.split ","%char text.

(** [s.endswith(suffix)]. *)
Definition endswith (suffix s : string) : bool :=
  String.prefix (String.rev suffix) (String.rev s).

(** [list(l).index(x)]: the first position of [x], [ValueError] when it
    does not occur. *)
Fixpoint index_of (x : string) (l : list string) : res nat :=
  match l with
  | [] => Raise ValueError
  | y :: l' => if decide (y = x) then Ok 0 else i ← index_of x l'; Ok (S i)
  end.

(** [d[k]] on a dictionary: [KeyError] for a missing key. *)
Definition getkey {A} (d : gmap string A) (k : string) : res A :=
  match d !! k with
  | Some a => Ok a
  | None => Raise KeyError
  end.

(** What a [try] block may end in: a value, an [HTTPException], or any
    other exception. *)
Inductive raised : Type :=
| Http (status_code : nat) (detail : string)
| Other (e : exn).

Inductive attempt (A : Type) : Type :=
| Done (a : A)
| Fail (r : raised).

Arguments Done {A} a.
Arguments Fail {A} r.

#[global] Instance attempt_ret : MRet attempt := λ A a, Done a.
#[global] Instance attempt_bind : MBind attempt := λ A B f m,
  match m with
  | Done a => f a
  | Fail r => Fail r
  end.

Definition lift {A} (m : res A) : attempt A :=
  match m with
  | Ok a => Done a
  | Raise e => Fail (Other e)
  end.

(** What the endpoint answers: a response, or an HTTP error. *)
Inductive outcome (A : Type) : Type :=
| Return (a : A)
| HTTPException (status_code : nat) (detail : string).

Arguments Return {A} a.
Arguments HTTPException {A} status_code detail.

(** A fitted scikit-learn classifier, applied to the one-row feature
    matrix: [predict(X)[0]], [predict_proba(X)[0]] and [classes_]. *)
Record classifier : Type := Classifier {
  classes_ : list string;
  predict : list (list Q) → res string;
  predict_proba : list (list Q) → res (list Q)
}.

(** [models.PredictionResponse]. *)
Record PredictionResponse : Type := mkPredictionResponse {
  candidate_name : string;
  email : string;
  phone : string;
  education : string;
  experience_years : Z;
  skills : string;
  is_suitable : bool;
  suitability_confidence : Q;
  recommended_role : string;
  role_confidence : Q;
  top_3_roles : list RoleMatch;
  recommendation : string
}.

Section Pipeline.

(** [str(e)] for an exception, the PDF reader ([PyPDF2.PdfReader] and
    the [extract_text] of each of its pages), the five artifacts, numpy's
    [argsort] and [round(x, 2)]. *)
Variable str_exn : exn → string.
Variable PdfReader : list Byte.byte → res (list (res string)).
Variable experience_scaler : Z → res Q.
Variable education_encoder : string → res Z.
Variable skills_vectorizer : string → res (list Q).
Variable role_classifier : classifier.
Variable role_specific_models : gmap string classifier.
Variable argsort : list Q → list nat.
Variable round2 : Q → Q.

(** The loop of [extract_text_from_pdf]: [text += page.extract_text()]. *)
Fixpoint read_pages (pages : list (res string)) (text : string) : res string :=
  match pages with
  | [] => Ok text
  | page :: pages' =>
      page_text ← page;
      read_pages pages' (text +:+ page_text)
  end.

(** [extract_text_from_pdf] ([utils.py]): every exception becomes a 400. *)
Definition extract_text_from_pdf (pdf_file : list Byte.byte) : outcome string :=
  match (pdf_reader ← PdfReader pdf_file; read_pages pdf_reader "") with
  | Ok text => Return text
  | Raise e => HTTPException 400 ("Error reading PDF: " +:+ str_exn e)
  end.

(** The body of the [try] block of [predict_resume]. *)
Definition predict_resume_body (pdf_content : list Byte.byte)
    : attempt PredictionResponse :=
  resume_text ←
    match extract_text_from_pdf pdf_content with
    | Return text => Done text
    | HTTPException status_code detail => Fail (Http status_code detail)
    end;
  match resume_text with
  | EmptyString =>
      Fail (Http 400 "Could not extract sufficient text from PDF")
  | _ =>
      candidate_info ← lift (extract_resume_info resume_text);
      resume_vectorized ←
        lift (Main.resume_vectorized experience_scaler education_encoder
                                     skills_vectorizer candidate_info);
      recommended_role_raw ← lift (predict role_classifier resume_vectorized);
      role_probabilities ←
        lift (predict_proba role_classifier resume_vectorized);
      let recommended_role := normalize_role recommended_role_raw in
      role_idx ← lift (index_of recommended_role_raw (classes_ role_classifier));
      role_confidence ← lift (getitem role_probabilities role_idx);
      role_model ← lift (getkey role_specific_models recommended_role);
      suitability_prediction ← lift (predict role_model resume_vectorized);
      suitability_proba ← lift (predict_proba role_model resume_vectorized);
      predicted_idx ←
        lift (index_of suitability_prediction (classes_ role_model));
      suitability_confidence ← lift (getitem suitability_proba predicted_idx);
      let is_suitable := Main.is_suitable suitability_prediction in
      top_3_roles ←
        lift (Main.top_3_roles (classes_ role_classifier) role_probabilities
                               (argsort role_probabilities));
      let recommendation :=
        Main.recommendation is_suitable suitability_confidence in
      Done (mkPredictionResponse
              (Utils.name candidate_info)
              (Utils.email candidate_info)
              (Utils.phone candidate_info)
              (Str.take 200 (Utils.education candidate_info))
              (Utils.experience_years candidate_info)
              (Utils.skills candidate_info)
              is_suitable
              (round2 (suitability_confidence * 100))
              recommended_role
              (round2 (role_confidence * 100))
              top_3_roles
              recommendation)
  end.

(** [predict_resume] ([main.py]): the file-type check, then the [try]
    block with its two handlers. *)
Definition predict_resume (filename : string) (pdf_content : list Byte.byte)
    : outcome PredictionResponse :=
  if negb (endswith ".pdf" filename)
  then HTTPException 400 "Only PDF files are supported"
  else
    match predict_resume_body pdf_content with
    | Done response => Return response
    | Fail (Http status_code detail) => HTTPException status_code detail
    | Fail (Other e) =>
        HTTPException 500 ("Error processing resume: " +:+ str_exn e)
    end.

End Pipeline.

End Endpoint.

(** ** More predicates for the properties *)

Module Facts.

Import Re.

(** The characters a pattern can consume. *)
Fixpoint alphabet (r : regex) (c : ascii) : bool :=
  match r with
  | Eps | Bnd => false
  | Chr a => Ascii.eqb a c
  | Cls p => p c
  | Cat r1 r2 | Alt r1 r2 => alphabet r1 c || alphabet r2 c
  | Opt r1 | OptLazy r1 | Star r1 | Grp _ r1 => alphabet r1 c
  end.

(** The character before the position reached after skipping [skipped]. *)
Fixpoint last_char (prev : option ascii) (skipped : string) : option ascii :=
  match skipped with
  | EmptyString => prev
  | String c skipped' => last_char (Some c) skipped'
  end.

Definition not_newline (c : ascii) : bool := negb (Ascii.eqb Char.newline c).

(** The least number of characters a match of a pattern holds. *)
Fixpoint min_length (r : regex) : nat :=
  match r with
  | Eps | Bnd => 0
  | Chr _ | Cls _ => 1
  | Cat r1 r2 => min_length r1 + min_length r2
  | Alt r1 r2 => Nat.min (min_length r1) (min_length r2)
  | Opt _ | OptLazy _ | Star _ => 0
  | Grp _ r1 => min_length r1
  end.

(** The characters of a phone number: digits, whitespace, [-], [.] and
    parentheses. *)
Definition phone_char (c : ascii) : bool :=
  Char.is_digit c || Char.is_space c || Utils.one_of "-.()" c.

(** The texts of the pages of a document, one after the other. *)
Definition pages_text (texts : list string) : string :=
  foldr String.append "" texts.

(** The keywords [get_skills] finds in a text, in keyword-list order. *)
Definition found_keywords (text : string) : list string :=
  List.filter (λ word, has_match (Utils.skill_re word) (Str.lower text))
              Utils.keywords.

(** A token that survives the tokenizer unchanged, alone or after the
    space that follows a comma: no comma, no surrounding whitespace, no
    upper-case letter. *)
Definition token_ok (t : string) : bool :=
  Str.all_chars (λ c, negb (Ascii.eqb ","%char c)) t
  && String.eqb (Str.strip t) t
  && String.eqb (Str.strip (" " +:+ t)) t
  && String.eqb (Str.lower t) t.

(** The greatest of a list of probabilities bounds each of them. *)
Definition is_maximum (q : Q) (p : list Q) : Prop :=
  Forall (λ x, (x <= q)%Q) p.

End Facts.

(** ** Sample artifacts *)

Definition sample_pdf_reader (pdf_file : list Byte.byte)
    : res (list (res string)) :=
  match pdf_file with
  | [] => Raise ValueError
  | _ => Ok [Ok ("John Smith" +:+ String Char.newline "john.smith@email.com");
             Ok (String Char.newline "5 years of python.")]
  end.

Definition sample_role_classifier : Endpoint.classifier :=
  Endpoint.Classifier
    ["Data Analyst_select"; "Data Analyst_reject"; "Web Developer_select"]
    (λ _, Ok "Data Analyst_select")
    (λ _, Ok [5 # 10; 3 # 10; 2 # 10]%Q).

Definition sample_role_model : Endpoint.classifier :=
  Endpoint.Classifier ["reject"; "select"]
    (λ _, Ok "select") (λ _, Ok [15 # 100; 85 # 100]%Q).

Definition sample_role_models : gmap string Endpoint.classifier :=
  {[ "Data Analyst" := sample_role_model ]}.

Definition sample_str_exn (e : exn) : string :=
  match e with
  | IndexError => "list index out of range"
  | ValueError => "invalid value"
  | KeyError => "missing key"
  end.

Definition sample_predict_resume :=
  Endpoint.predict_resume sample_str_exn sample_pdf_reader sample_scaler
    sample_encoder sample_vectorizer sample_role_classifier
    sample_role_models Main.stable_argsort (λ q, q).

(** * Properties *)

Import Utils Main Described.

(** ** Evaluation on samples *)

Example title_example : Str.title "hello wORLD" = "Hello World".
Proof. reflexivity. Qed.

Example strip_example : Str.strip "  a b " = "a b".
Proof. reflexivity. Qed.

Example split_example : Str.split ","%char "a,,b" = ["a"; ""; "b"].
Proof. reflexivity. Qed.

Example rsplit1_example : Str.rsplit1 "_"%char "a_b_c" = ["a_b"; "c"].
Proof. reflexivity. Qed.

Example int_example : Str.int "042" = Ok 42%Z.
Proof. reflexivity. Qed.

Example extract_sample :
  extract_resume_info sample_resume =
  Ok (ResumeInfo "John Smith" "john.smith@email.com" "555-123-4567"
                 "Bachelor Of Science In Computer Science" 5 "python, sql, aws").
Proof. vm_compute. reflexivity. Qed.

Example top_3_sample :
  top_3_roles ["A_select"; "A_reject"; "B_select"] [5 # 10; 3 # 10; 2 # 10]%Q
              (stable_argsort [5 # 10; 3 # 10; 2 # 10]%Q)
  = Ok [mkRoleMatch "A" (5 # 10); mkRoleMatch "B" (2 # 10)].
Proof. vm_compute. reflexivity. Qed.

(** ** Strings *)

Lemma app_cons (x : ascii) (a b : string) :
  String x a +:+ b = String x (a +:+ b).
Proof. reflexivity. Qed.

Lemma app_nil (b : string) : "" +:+ b = b.
Proof. reflexivity. Qed.

Lemma app_assoc_string (a b c : string) : (a +:+ b) +:+ c = a +:+ b +:+ c.
Proof. induction a as [|x a IH]; [done|]. by rewrite !app_cons, IH. Qed.

Lemma length_app_string (a b : string) :
  String.length (a +:+ b) = String.length a + String.length b.
Proof.
  induction a as [|x a IH]; [done|]. rewrite app_cons. simpl. by rewrite IH.
Qed.

Lemma take_app_string (a b : string) :
  Str.take (String.length a) (a +:+ b) = a.
Proof.
  induction a as [|x a IH]; [by destruct b|].
  rewrite app_cons. simpl. by rewrite IH.
Qed.

Lemma prefix_app (w b : string) : String.prefix w (w +:+ b) = true.
Proof.
  induction w as [|c w IH]; [by destruct b|].
  rewrite app_cons. simpl. by destruct (ascii_dec c c).
Qed.

Lemma prefix_app_l (w s b : string) :
  String.prefix w s = true → String.prefix w (s +:+ b) = true.
Proof.
  revert w. induction s as [|c s IH]; intros [|a w] H.
  - by destruct b.
  - done.
  - by destruct (String c s +:+ b).
  - rewrite app_cons. simpl in *. destruct (ascii_dec a c); [by apply IH|done].
Qed.

Lemma contains_prefix (w s : string) :
  String.prefix w s = true → Str.contains w s = true.
Proof. intros H. destruct s; simpl in *; by rewrite H. Qed.

Lemma contains_app_r (w a s : string) :
  Str.contains w s = true → Str.contains w (a +:+ s) = true.
Proof.
  intros H. induction a as [|c a IH]; [done|].
  rewrite app_cons. cbn [Str.contains]. rewrite IH. apply orb_true_r.
Qed.

Lemma contains_app_l (w s b : string) :
  Str.contains w s = true → Str.contains w (s +:+ b) = true.
Proof.
  induction s as [|c s IH]; cbn [Str.contains].
  - rewrite orb_false_r. intros H. apply contains_prefix.
    by apply (prefix_app_l w "" b).
  - intros [H|H]%orb_true_iff.
    + apply contains_prefix. by apply (prefix_app_l w (String c s) b).
    + rewrite app_cons. cbn [Str.contains]. rewrite (IH H). apply orb_true_r.
Qed.

Lemma contains_middle (a w b : string) :
  Str.contains w (a +:+ w +:+ b) = true.
Proof. apply contains_app_r, contains_prefix, prefix_app. Qed.

Lemma count_char_app (c : ascii) (a b : string) :
  Str.count_char c (a +:+ b) = Str.count_char c a + Str.count_char c b.
Proof.
  induction a as [|x a IH]; [done|].
  rewrite app_cons. cbn [Str.count_char]. rewrite IH. lia.
Qed.

Lemma all_chars_app (p : ascii → bool) (a b : string) :
  Str.all_chars p (a +:+ b) = Str.all_chars p a && Str.all_chars p b.
Proof.
  induction a as [|x a IH]; [done|].
  rewrite app_cons. cbn [Str.all_chars]. rewrite IH. apply andb_assoc.
Qed.

Lemma all_chars_impl (p q : ascii → bool) (s : string) :
  (∀ c, p c = true → q c = true) →
  Str.all_chars p s = true → Str.all_chars q s = true.
Proof.
  intros Hpq. induction s as [|c s IH]; [done|]. cbn [Str.all_chars].
  intros [Hc Hs]%andb_true_iff. by rewrite (Hpq c Hc), IH.
Qed.

Lemma rev_app_spec (s acc : string) :
  String.rev_app s acc = String.rev s +:+ acc.
Proof.
  unfold String.rev. revert acc. induction s as [|c s IH]; intros acc; [done|].
  cbn [String.rev_app]. rewrite IH, (IH (String c "")).
  by rewrite app_assoc_string.
Qed.

Lemma rev_cons (c : ascii) (s : string) :
  String.rev (String c s) = String.rev s +:+ String c "".
Proof. unfold String.rev at 1. cbn [String.rev_app]. apply rev_app_spec. Qed.

Lemma length_rev (s : string) : String.length (String.rev s) = String.length s.
Proof.
  induction s as [|c s IH]; [done|].
  rewrite rev_cons, length_app_string, IH. simpl. lia.
Qed.

Lemma all_chars_rev (p : ascii → bool) (s : string) :
  Str.all_chars p (String.rev s) = Str.all_chars p s.
Proof.
  induction s as [|c s IH]; [done|].
  rewrite rev_cons, all_chars_app, IH. cbn [Str.all_chars].
  rewrite andb_true_r. apply andb_comm.
Qed.

Lemma length_lstrip (s : string) :
  String.length (Str.lstrip s) ≤ String.length s.
Proof.
  induction s as [|c s IH]; [done|]. cbn [Str.lstrip].
  destruct (Char.is_space c); simpl in *; lia.
Qed.

Lemma all_chars_lstrip (p : ascii → bool) (s : string) :
  Str.all_chars p s = true → Str.all_chars p (Str.lstrip s) = true.
Proof.
  induction s as [|c s IH]; [done|]. cbn [Str.lstrip Str.all_chars].
  intros [Hc Hs]%andb_true_iff.
  destruct (Char.is_space c); [by apply IH|]. cbn [Str.all_chars].
  by rewrite Hc, Hs.
Qed.

Lemma length_strip (s : string) :
  String.length (Str.strip s) ≤ String.length s.
Proof.
  unfold Str.strip, Str.rstrip. rewrite length_rev.
  etrans; [apply length_lstrip|]. rewrite length_rev. apply length_lstrip.
Qed.

Lemma all_chars_strip (p : ascii → bool) (s : string) :
  Str.all_chars p s = true → Str.all_chars p (Str.strip s) = true.
Proof.
  intros H. unfold Str.strip, Str.rstrip. rewrite all_chars_rev.
  apply all_chars_lstrip. rewrite all_chars_rev. by apply all_chars_lstrip.
Qed.

Lemma length_title_go (b : bool) (s : string) :
  String.length (Str.title_go b s) = String.length s.
Proof. revert b. induction s as [|c s IH]; intros b; [done|]. simpl. by rewrite IH. Qed.

Lemma take_all (n : nat) (s : string) :
  String.length s ≤ n → Str.take n s = s.
Proof.
  revert n. induction s as [|c s IH]; intros n Hn; [by destruct n|].
  destruct n as [|n]; simpl in *; [lia|]. rewrite IH; [done|lia].
Qed.

(** ** The recommendation tier *)

Lemma Qle_bool_false (x y : Q) : (y < x)%Q → Qle_bool x y = false.
Proof.
  intros Hlt. destruct (Qle_bool x y) eqn:E; [|done].
  apply Qle_bool_iff in E. destruct (Qlt_not_le _ _ Hlt E).
Qed.

(** C7: the recommendation text is a function of the suitability flag
    and the confidence, with 0.80 and 0.60 the float literals of the
    code: for a suitable candidate "Strong candidate match." from 0.80 up
    (0.80 included), "Good candidate match." from 0.60 (included) to
    below 0.80, "Review candidate properly" below 0.60; for an unsuitable
    candidate "Not a good fit" whatever the confidence. *)
Theorem recommendation_tiers (c : Q) :
  ((float_0_8 <= c)%Q → recommendation true c = "Strong candidate match.") ∧
  ((float_0_6 <= c)%Q → (c < float_0_8)%Q →
     recommendation true c = "Good candidate match.") ∧
  ((c < float_0_6)%Q → recommendation true c = "Review candidate properly") ∧
  recommendation false c = "Not a good fit" ∧
  recommendation true float_0_8 = "Strong candidate match." ∧
  recommendation true float_0_6 = "Good candidate match.".
Proof.
  unfold recommendation. repeat split.
  - intros H. apply Qle_bool_iff in H. by rewrite H.
  - intros Hlo Hhi. apply Qle_bool_iff in Hlo.
    by rewrite (Qle_bool_false _ _ Hhi), Hlo.
  - intros Hlt.
    assert (c < float_0_8)%Q as Hhi by (eapply Qlt_trans; [exact Hlt|done]).
    by rewrite (Qle_bool_false _ _ Hhi), (Qle_bool_false _ _ Hlt).
Qed.

Lemma recommendation_tiers_witness :
  recommendation true (9 # 10) = "Strong candidate match." ∧
  recommendation true (7 # 10) = "Good candidate match." ∧
  recommendation true (1 # 2) = "Review candidate properly".
Proof.
  split; [|split].
  - destruct (recommendation_tiers (9 # 10)) as (H & _).
    apply H. unfold Qle. simpl. lia.
  - destruct (recommendation_tiers (7 # 10)) as (_ & H & _).
    apply H.
    + unfold Qle. simpl. lia.
    + unfold Qlt. simpl. lia.
  - destruct (recommendation_tiers (1 # 2)) as (_ & _ & H & _).
    apply H. unfold Qlt. simpl. lia.
Defined.

(** ** Role-label normalisation *)

Lemma contains_char_count (c : ascii) (s : string) :
  Str.contains (String c "") s = negb (Str.count_char c s =? 0).
Proof.
  induction s as [|a s IH]; [done|].
  cbn [Str.contains Str.count_char String.prefix]. rewrite IH.
  destruct (Ascii.eqb_spec a c) as [->|Hne].
  - destruct (ascii_dec c c); [|done]. by destruct s.
  - destruct (ascii_dec c a) as [->|]; done.
Qed.

Lemma rsplit1_go_none (c : ascii) (s : string) :
  Str.rsplit1_go c s = None ↔ Str.count_char c s = 0.
Proof.
  induction s as [|a s IH]; [done|].
  cbn [Str.rsplit1_go Str.count_char].
  destruct (Str.rsplit1_go c s) as [[h t]|].
  - split; [done|]. intros H. assert (Str.count_char c s = 0) as H0 by lia.
    apply IH in H0. done.
  - destruct (Ascii.eqb a c); [done|]. simpl. tauto.
Qed.

Lemma rsplit1_go_some (c : ascii) (s h t : string) :
  Str.rsplit1_go c s = Some (h, t) →
  Str.count_char c s = S (Str.count_char c h) ∧
  String.length h < String.length s.
Proof.
  revert h. induction s as [|a s IH]; intros h; [done|].
  cbn [Str.rsplit1_go Str.count_char].
  destruct (Str.rsplit1_go c s) as [[h' t']|] eqn:E.
  - intros [= <- <-]. destruct (IH h' eq_refl) as [-> Hlen].
    cbn [Str.count_char String.length]. split; lia.
  - destruct (Ascii.eqb a c); [|done]. intros [= <- <-].
    apply rsplit1_go_none in E. rewrite E. simpl. split; lia.
Qed.

Lemma normalize_role_plain (s : string) :
  Str.count_char "_" s = 0 → normalize_role s = s.
Proof.
  intros H. unfold normalize_role. by rewrite contains_char_count, H.
Qed.

Lemma normalize_role_strips (s : string) :
  Str.count_char "_" s ≠ 0 →
  Str.count_char "_" s = S (Str.count_char "_" (normalize_role s)) ∧
  String.length (normalize_role s) < String.length s.
Proof.
  intros H. unfold normalize_role, Str.rsplit1.
  rewrite contains_char_count.
  destruct (Str.count_char "_" s =? 0) eqn:E; [by apply Nat.eqb_eq in E|].
  simpl. destruct (Str.rsplit1_go "_" s) as [[h t]|] eqn:Hgo.
  - by apply rsplit1_go_some in Hgo.
  - by apply rsplit1_go_none in Hgo.
Qed.

Lemma rsplit1_go_split (c : ascii) (s h t : string) :
  Str.rsplit1_go c s = Some (h, t) →
  s = h +:+ String c t ∧ Str.count_char c t = 0.
Proof.
  revert h. induction s as [|a s IH]; intros h; [done|].
  cbn [Str.rsplit1_go].
  destruct (Str.rsplit1_go c s) as [[h' t']|] eqn:E.
  - intros [= <- <-]. destruct (IH h' eq_refl) as [-> Ht].
    by rewrite app_cons.
  - destruct (Ascii.eqb_spec a c) as [->|]; [|done]. intros [= <- <-].
    by apply rsplit1_go_none in E.
Qed.

Lemma rsplit1_go_app (c : ascii) (a b : string) :
  Str.count_char c b = 0 →
  Str.rsplit1_go c (a +:+ String c b) = Some (a, b).
Proof.
  intros Hb. induction a as [|x a IH].
  - rewrite app_nil. cbn [Str.rsplit1_go].
    apply rsplit1_go_none in Hb. by rewrite Hb, Ascii.eqb_refl.
  - rewrite app_cons. cbn [Str.rsplit1_go]. by rewrite IH.
Qed.

(** A role name followed by an underscore and a suffix without
    underscores normalises to the role name, also when the role name
    itself has underscores. *)
Lemma normalize_role_suffix (role suffix : string) :
  Str.count_char "_" suffix = 0 →
  normalize_role (role +:+ "_" +:+ suffix) = role.
Proof.
  intros Hs. unfold normalize_role, Str.rsplit1.
  rewrite contains_char_count, count_char_app.
  change ("_" +:+ suffix) with (String "_" suffix).
  rewrite (rsplit1_go_app _ _ _ Hs). cbn [Str.count_char].
  rewrite Ascii.eqb_refl.
  by replace (_ + _ =? 0) with false by (symmetry; apply Nat.eqb_neq; lia).
Qed.

(** C8, as amended: normalising a role name without an underscore
    returns it unchanged; a label with an underscore is a role name, an
    underscore and a last segment without underscores, and normalisation
    returns exactly the role name; so normalising twice equals
    normalising once exactly for the labels with at most one
    underscore. *)
Theorem normalize_role_twice (s : string) :
  (Str.contains "_" s = false → normalize_role s = s) ∧
  (∀ role suffix, Str.count_char "_" suffix = 0 →
                  s = role +:+ "_" +:+ suffix → normalize_role s = role) ∧
  (Str.contains "_" s = true →
   ∃ role suffix, s = role +:+ "_" +:+ suffix ∧
                  Str.count_char "_" suffix = 0) ∧
  (normalize_role (normalize_role s) = normalize_role s
   ↔ Str.count_char "_" s ≤ 1).
Proof.
  split_and!.
  - rewrite contains_char_count. intros H. apply normalize_role_plain.
    destruct (Str.count_char "_" s); [done|discriminate].
  - intros role suffix Hs ->. by apply normalize_role_suffix.
  - rewrite contains_char_count. intros H.
    destruct (Str.rsplit1_go "_" s) as [[h t]|] eqn:E.
    + apply rsplit1_go_split in E as [-> Ht]. by exists h, t.
    + apply rsplit1_go_none in E. by rewrite E in H.
  - destruct (decide (Str.count_char "_" s = 0)) as [H0|H0].
    { rewrite !(normalize_role_plain s H0). split; [lia|done]. }
    destruct (normalize_role_strips s H0) as [Hc _].
    destruct (decide (Str.count_char "_" (normalize_role s) = 0)) as [H1|H1].
    { rewrite (normalize_role_plain _ H1). split; [lia|done]. }
    destruct (normalize_role_strips _ H1) as [_ Hlen].
    split; [|lia]. intros Heq. rewrite Heq in Hlen. lia.
Qed.

Lemma normalize_role_twice_witness :
  normalize_role "Data Analyst" = "Data Analyst" ∧
  normalize_role "Data_Analyst_select" = "Data_Analyst" ∧
  ∃ role suffix, "Data Analyst_select" = role +:+ "_" +:+ suffix ∧
                 Str.count_char "_" suffix = 0.
Proof.
  split_and!.
  - destruct (normalize_role_twice "Data Analyst") as (H & _).
    apply H. reflexivity.
  - destruct (normalize_role_twice "Data_Analyst_select") as (_ & H & _).
    apply (H "Data_Analyst" "select"); reflexivity.
  - destruct (normalize_role_twice "Data Analyst_select") as (_ & _ & H & _).
    apply H. reflexivity.
Defined.

(** C8, as stated, fails: a label with two underscores loses a segment
    at each normalisation. *)
Lemma normalize_role_not_idempotent :
  normalize_role "Data_Analyst_select" = "Data_Analyst" ∧
  normalize_role (normalize_role "Data_Analyst_select")
  ≠ normalize_role "Data_Analyst_select".
Proof. split; [reflexivity|]. vm_compute. discriminate. Qed.

(** ** [argsort] *)

(** The insertion sort gives one of the results [argsort] may return. *)

Section Argsort.

Variable a : list Q.

Lemma insert_index_perm (i : nat) (l : list nat) :
  insert_index a i l ≡ₚ i :: l.
Proof.
  induction l as [|j l IH]; [done|]. simpl.
  destruct (Qle_bool _ _); [|done].
  rewrite IH. apply Permutation_swap.
Qed.

Lemma insert_index_sorted (i : nat) (l : list nat) :
  StronglySorted (ascending a) l → Forall (λ j, j < i) l →
  StronglySorted (ascending a) (insert_index a i l).
Proof.
  induction l as [|j l IH]; intros Hs Hlt; simpl.
  { repeat constructor. }
  apply StronglySorted_cons in Hs as [Hj Hs].
  apply Forall_cons in Hlt as [Hji Hlt].
  destruct (Qle_bool (nth j a 0%Q) (nth i a 0%Q)) eqn:E.
  - apply StronglySorted_cons. split; [|by apply IH].
    rewrite insert_index_perm. constructor; [|done].
    apply Qle_bool_iff in E. unfold ascending, tie_reverse_order.
    destruct (Qle_lt_or_eq _ _ E) as [?|?]; [by left|right; done].
  - assert (nth i a 0 < nth j a 0)%Q as Hij.
    { apply Qnot_le_lt. intros H. apply Qle_bool_iff in H. congruence. }
    apply StronglySorted_cons. split; [|by apply StronglySorted_cons].
    constructor; [by left|].
    eapply Forall_impl; [exact Hj|]. intros x [Hx|[Hx _]]; left.
    + by eapply Qlt_trans.
    + by rewrite <- Hx.
Qed.

Lemma argsort_fold_perm (l acc : list nat) :
  foldl (λ sorted i, insert_index a i sorted) acc l ≡ₚ acc ++ l.
Proof.
  revert acc. induction l as [|i l IH]; intros acc; simpl.
  { by rewrite app_nil_r. }
  rewrite IH, insert_index_perm. simpl. apply Permutation_middle.
Qed.

Lemma argsort_fold_sorted (start len : nat) (acc : list nat) :
  StronglySorted (ascending a) acc → Forall (λ j, j < start) acc →
  StronglySorted (ascending a)
    (foldl (λ sorted i, insert_index a i sorted) acc (seq start len)).
Proof.
  revert start acc. induction len as [|len IH]; intros start acc Hs Hlt.
  { done. }
  simpl. apply IH.
  - by apply insert_index_sorted.
  - rewrite insert_index_perm. constructor; [lia|].
    eapply Forall_impl; [exact Hlt|]. simpl. lia.
Qed.

Lemma stable_argsort_perm : stable_argsort a ≡ₚ seq 0 (length a).
Proof. unfold stable_argsort. by rewrite argsort_fold_perm. Qed.

Lemma stable_argsort_sorted : StronglySorted (ascending a) (stable_argsort a).
Proof. apply argsort_fold_sorted; constructor. Qed.

End Argsort.

Lemma StronglySorted_flip_reverse {A} (R : relation A) (l : list A) :
  StronglySorted R l → StronglySorted (flip R) (reverse l).
Proof.
  induction 1 as [|x l Hs IH Hx]; [constructor|].
  rewrite reverse_cons. apply StronglySorted_app. split_and!.
  - intros y z Hy ->%list_elem_of_singleton. rewrite elem_of_reverse in Hy.
    rewrite Forall_forall in Hx. unfold flip. by apply Hx.
  - done.
  - repeat constructor.
Qed.

Lemma StronglySorted_sublist {A} (R : relation A) (l k : list A) :
  l `sublist_of` k → StronglySorted R k → StronglySorted R l.
Proof.
  induction 1 as [|x l k Hsub IH|x l k Hsub IH]; intros Hs.
  - constructor.
  - apply StronglySorted_cons in Hs as [Hx Hs].
    apply StronglySorted_cons. split; [|by apply IH].
    rewrite Forall_forall in Hx |- *. intros y Hy. apply Hx.
    by eapply sublist_subseteq.
  - apply StronglySorted_cons in Hs as [_ Hs]. by apply IH.
Qed.

Lemma StronglySorted_impl {A} (R1 R2 : relation A) (l : list A) :
  (∀ x y, R1 x y → R2 x y) → StronglySorted R1 l → StronglySorted R2 l.
Proof.
  intros HR. induction 1 as [|x l Hs IH Hx]; constructor; [done|].
  eapply Forall_impl; [exact Hx|]. auto.
Qed.

Lemma stable_argsort_is_argsort (a : list Q) : is_argsort a (stable_argsort a).
Proof.
  split; [apply stable_argsort_perm|].
  eapply StronglySorted_impl; [|apply stable_argsort_sorted].
  intros i j [H|[H _]].
  - by apply Qlt_le_weak.
  - rewrite H. apply Qle_refl.
Qed.

Lemma is_argsort_elem_of (p : list Q) (sorted : list nat) (i : nat) :
  is_argsort p sorted → i ∈ sorted ↔ i < length p.
Proof. intros [Hp _]. rewrite Hp, elem_of_seq. lia. Qed.

(** The indices visited: at most three, in range, by descending
    probability; no index left out has a higher probability than one
    that is visited. *)
Lemma top_3_indices_length (sorted : list nat) :
  length (top_3_indices sorted) ≤ 3.
Proof.
  unfold top_3_indices, last_n. rewrite length_reverse, length_drop. lia.
Qed.

Lemma top_3_indices_elem_of (p : list Q) (sorted : list nat) (i : nat) :
  is_argsort p sorted → i ∈ top_3_indices sorted → i < length p.
Proof.
  unfold top_3_indices, last_n. rewrite elem_of_reverse. intros Hs Hi.
  apply (is_argsort_elem_of p sorted i Hs). by eapply subseteq_drop.
Qed.

Lemma top_3_indices_sorted (p : list Q) (sorted : list nat) :
  is_argsort p sorted →
  StronglySorted (λ i j, (nth j p 0 <= nth i p 0)%Q) (top_3_indices sorted).
Proof.
  intros [_ Hs]. unfold top_3_indices, last_n.
  apply (StronglySorted_flip_reverse (λ i j, (nth i p 0 <= nth j p 0)%Q)).
  eapply StronglySorted_sublist; [apply sublist_drop|done].
Qed.

Lemma top_3_indices_top (p : list Q) (sorted : list nat) (k i : nat) :
  is_argsort p sorted →
  k < length p → k ∉ top_3_indices sorted → i ∈ top_3_indices sorted →
  (nth k p 0 <= nth i p 0)%Q.
Proof.
  unfold top_3_indices, last_n. rewrite !elem_of_reverse.
  intros Hsorted Hk Hnot Hi.
  apply (is_argsort_elem_of p sorted k Hsorted) in Hk.
  destruct Hsorted as [_ Hs].
  rewrite <- (take_drop (length sorted - 3) sorted) in Hs, Hk.
  apply elem_of_app in Hk as [Hk|Hk]; [|done].
  by apply (StronglySorted_app_1_elem_of _ _ _ _ _ Hs).
Qed.

(** ** The top-3 walk *)

Lemma getitem_nth {A} (l : list A) (i : nat) (d : A) :
  i < length l → getitem l i = Ok (nth i l d).
Proof.
  intros Hi. unfold getitem.
  destruct (lookup_lt_is_Some_2 l i Hi) as [x Hx].
  by rewrite Hx, (nth_lookup_Some _ _ d x Hx).
Qed.

(** The loop is the walk the design document describes, over the
    indices it is given. *)
Lemma top_3_loop_keep_first (classes_ : list string) (p : list Q)
    (indices : list nat) (top : list RoleMatch) (seen : gset string) :
  Forall (λ i, i < length classes_ ∧ i < length p) indices →
  length top < 3 →
  top_3_loop classes_ p indices top seen
  = Ok (top ++ take (3 - length top)
                    (keep_first seen (entry classes_ p <$> indices))).
Proof.
  revert top seen. induction indices as [|idx indices IH];
    intros top seen Hin Hlen.
  { simpl. by rewrite take_nil, app_nil_r. }
  apply Forall_cons in Hin as [[Hc Hp] Hin].
  cbn [top_3_loop fmap list_fmap keep_first].
  rewrite (getitem_nth classes_ idx "" Hc). cbn [mbind res_bind].
  change (normalize_role (nth idx classes_ "")) with (role (entry classes_ p idx)).
  destruct (decide (role (entry classes_ p idx) ∈ seen)) as [Hseen|Hseen].
  - rewrite decide_False by (intros H; by apply H).
    cbn [mbind res_bind].
    destruct (3 <=? length top) eqn:E; [apply Nat.leb_le in E; lia|].
    by apply IH.
  - rewrite decide_True by done.
    rewrite (getitem_nth p idx 0%Q Hp). cbn [mbind res_bind].
    rewrite length_app. cbn [length].
    destruct (3 <=? length top + 1) eqn:E.
    + apply Nat.leb_le in E. replace (3 - length top) with 1 by lia.
      cbn [take]. by rewrite take_0.
    + apply Nat.leb_gt in E. rewrite IH by (done || rewrite length_app; simpl; lia).
      rewrite length_app. cbn [length].
      replace (3 - length top) with (S (3 - (length top + 1))) by lia.
      cbn [take]. by rewrite <- app_assoc.
Qed.

Lemma keep_first_sublist (seen : gset string) (l : list RoleMatch) :
  keep_first seen l `sublist_of` l.
Proof.
  revert seen. induction l as [|m l IH]; intros seen; simpl; [done|].
  destruct (decide _); [by apply sublist_cons|by apply sublist_skip].
Qed.

Lemma keep_first_fresh (seen : gset string) (l : list RoleMatch) :
  Forall (λ m, role m ∉ seen) (keep_first seen l) ∧
  NoDup (role <$> keep_first seen l).
Proof.
  revert seen. induction l as [|m l IH]; intros seen; simpl.
  { split; constructor. }
  destruct (decide (role m ∈ seen)) as [Hm|Hm]; [apply IH|].
  destruct (IH ({[role m]} ∪ seen)) as [Hf Hn]. split.
  - constructor; [done|]. eapply Forall_impl; [exact Hf|].
    intros x Hx Hin. apply Hx, elem_of_union. by right.
  - csimpl. constructor; [|done].
    intros (m' & Heq & Hm')%list_elem_of_fmap.
    rewrite Forall_forall in Hf. apply (Hf m' Hm'), elem_of_union. left.
    by apply elem_of_singleton.
Qed.

(** Every entry kept is the first one of the walk with its role name. *)
Lemma keep_first_representative (seen : gset string) (l : list RoleMatch)
    (m : RoleMatch) :
  m ∈ keep_first seen l →
  ∃ k, l !! k = Some m ∧
       ∀ k' m', k' < k → l !! k' = Some m' → role m' ≠ role m.
Proof.
  revert seen. induction l as [|m0 l IH]; intros seen; simpl.
  { by intros ?%elem_of_nil. }
  destruct (decide (role m0 ∈ seen)) as [Hm0|Hm0].
  - intros Hm. destruct (IH _ Hm) as (k & Hk & Hfirst).
    exists (S k). split; [done|].
    intros [|k'] m' Hlt; simpl.
    + intros [= <-] Heq.
      destruct (keep_first_fresh seen l) as [Hf _].
      rewrite Forall_forall in Hf. apply (Hf m Hm). by rewrite <- Heq.
    + apply Hfirst. lia.
  - intros [->|Hm]%elem_of_cons.
    + exists 0. split; [done|]. intros; lia.
    + destruct (IH _ Hm) as (k & Hk & Hfirst).
      exists (S k). split; [done|].
      intros [|k'] m' Hlt; simpl.
      * intros [= <-] Heq.
        destruct (keep_first_fresh ({[role m0]} ∪ seen) l) as [Hf _].
        rewrite Forall_forall in Hf. apply (Hf m Hm), elem_of_union. left.
        by apply elem_of_singleton.
      * apply Hfirst. lia.
Qed.

Lemma top_3_roles_keep_first (classes_ : list string) (p : list Q)
    (sorted : list nat) :
  is_argsort p sorted → length classes_ = length p →
  top_3_roles classes_ p sorted
  = Ok (take 3 (keep_first ∅ (entry classes_ p <$> top_3_indices sorted))).
Proof.
  intros Hs Hlen. unfold top_3_roles.
  rewrite top_3_loop_keep_first; [done| |simpl; lia].
  apply Forall_forall. intros i Hi.
  apply (top_3_indices_elem_of p sorted i Hs) in Hi. lia.
Qed.

(** C9: whatever order argsort leaves equal probabilities in, the top-3
    list has no role name twice, has at most three entries, is in
    descending order of confidence, and each entry carries the
    probability of the first label visited that normalises to its
    role. *)
Theorem top_3_roles_ranked (classes_ : list string) (p : list Q)
    (sorted : list nat) :
  is_argsort p sorted →
  length classes_ = length p →
  ∃ top,
    top_3_roles classes_ p sorted = Ok top ∧
    NoDup (role <$> top) ∧
    length top ≤ 3 ∧
    StronglySorted (λ m1 m2, (confidence m2 <= confidence m1)%Q) top ∧
    Forall (λ m, ∃ k idx,
              top_3_indices sorted !! k = Some idx ∧
              m = entry classes_ p idx ∧
              ∀ k' idx', k' < k → top_3_indices sorted !! k' = Some idx' →
                         normalize_role (nth idx' classes_ "") ≠ role m) top.
Proof.
  intros Hsorted Hlen. eexists.
  split; [by apply top_3_roles_keep_first|].
  set (walk := entry classes_ p <$> top_3_indices sorted).
  assert (take 3 (keep_first ∅ walk) `sublist_of` keep_first ∅ walk) as Hsub
    by apply sublist_take.
  split_and!.
  - apply (sublist_NoDup _ (role <$> keep_first ∅ walk)).
    + apply keep_first_fresh.
    + by apply (fmap_sublist role).
  - rewrite length_take. lia.
  - eapply StronglySorted_sublist;
      [etrans; [exact Hsub|apply keep_first_sublist]|].
    unfold walk.
    eapply StronglySorted_fmap; [|by apply top_3_indices_sorted].
    by intros i j Hij.
  - apply Forall_forall. intros m Hm.
    apply (sublist_subseteq _ _ Hsub) in Hm.
    destruct (keep_first_representative _ _ _ Hm) as (k & Hk & Hfirst).
    unfold walk in Hk. rewrite list_lookup_fmap in Hk.
    destruct (top_3_indices sorted !! k) as [idx|] eqn:Hidx; [|done].
    injection Hk as <-. exists k, idx. split_and!; [done..|].
    intros k' idx' Hlt Hk'.
    apply (Hfirst k' (entry classes_ p idx') Hlt).
    unfold walk. by rewrite list_lookup_fmap, Hk'.
Qed.

Lemma top_3_roles_ranked_witness :
  ∃ top,
    top_3_roles four_classes four_probabilities [3; 2; 1; 0] = Ok top ∧
    NoDup (role <$> top) ∧
    length top ≤ 3 ∧
    StronglySorted (λ m1 m2, (confidence m2 <= confidence m1)%Q) top ∧
    Forall (λ m, ∃ k idx,
              top_3_indices [3; 2; 1; 0] !! k = Some idx ∧
              m = entry four_classes four_probabilities idx ∧
              ∀ k' idx', k' < k →
                         top_3_indices [3; 2; 1; 0] !! k' = Some idx' →
                         normalize_role (nth idx' four_classes "") ≠ role m) top.
Proof.
  apply (top_3_roles_ranked four_classes four_probabilities [3; 2; 1; 0]).
  - apply (bool_decide_unpack _). vm_compute. exact I.
  - reflexivity.
Defined.

(** With four different probabilities argsort has one possible result. *)
Lemma four_probabilities_argsort (sorted : list nat) :
  is_argsort four_probabilities sorted → sorted = [3; 2; 1; 0].
Proof.
  intros [Hp Hs].
  apply (StronglySorted_unique_strong
           (λ i j, (nth i four_probabilities 0 <= nth j four_probabilities 0)%Q));
    [|done| |].
  - intros i j Hi Hj Hij Hji.
    assert (i < 4) as Hi4 by (rewrite Hp, elem_of_seq in Hi; simpl in Hi; lia).
    assert (j < 4) as Hj4.
    { rewrite !elem_of_cons, elem_of_nil in Hj. lia. }
    destruct i as [|[|[|[|i]]]]; [| | |  |lia];
      destruct j as [|[|[|[|j]]]]; try lia; try done;
      vm_compute in Hij, Hji; congruence.
  - apply (bool_decide_unpack _). vm_compute. exact I.
  - rewrite Hp. apply (bool_decide_unpack _). vm_compute. exact I.
Qed.

(** C1: on a classifier with three distinct role names, two of whose
    three most probable labels are variants of one role, the list has two
    entries: only the three most probable labels are walked, so being
    shorter than three does not mean that the classifier has fewer than
    three distinct role names. *)
Theorem top_3_roles_short (sorted : list nat) :
  is_argsort four_probabilities sorted →
  top_3_indices sorted = [0; 1; 2] ∧
  top_3_roles four_classes four_probabilities sorted
  = Ok [mkRoleMatch "A" (4 # 10); mkRoleMatch "B" (2 # 10)] ∧
  distinct_roles four_classes = ["A"; "B"; "C"] ∧
  ¬ (∀ top, top_3_roles four_classes four_probabilities sorted = Ok top →
            length top < 3 → length (distinct_roles four_classes) < 3).
Proof.
  intros ->%four_probabilities_argsort.
  split_and!; [reflexivity..|].
  intros H. specialize (H _ eq_refl). vm_compute in H.
  assert (4 ≤ 3) by (apply H; lia). lia.
Qed.

Lemma top_3_roles_short_witness :
  top_3_roles four_classes four_probabilities [3; 2; 1; 0]
  = Ok [mkRoleMatch "A" (4 # 10); mkRoleMatch "B" (2 # 10)].
Proof.
  apply (top_3_roles_short [3; 2; 1; 0]).
  apply (bool_decide_unpack _). vm_compute. exact I.
Defined.

(** ** Ties *)

(** C3, as stated, fails: for four classes of probability 1/4 and a
    fifth of probability 0, [4; 0; 2; 1; 3] is a result argsort may
    return; the classes are then visited in the order 3, 1, 2, which is
    not the class order. *)
Lemma ties_not_in_class_order :
  is_argsort tied_probabilities [4; 0; 2; 1; 3] ∧
  top_3_indices [4; 0; 2; 1; 3] = [3; 1; 2] ∧
  ¬ StronglySorted (tie_class_order tied_probabilities)
      (top_3_indices [4; 0; 2; 1; 3]).
Proof.
  split_and!; [apply (bool_decide_unpack _); vm_compute; exact I|reflexivity|].
  intros Hs. change (top_3_indices _) with [3; 1; 2] in Hs.
  apply StronglySorted_cons in Hs as [Hs _].
  apply Forall_cons in Hs as [[Hlt|[_ Hlt]] _].
  - vm_compute in Hlt. discriminate.
  - lia.
Qed.

(** Two neighbours of equal value may come in either order. *)
Lemma is_argsort_swap (p : list Q) (l1 l2 : list nat) (i j : nat) :
  is_argsort p (l1 ++ i :: j :: l2) → (nth i p 0 == nth j p 0)%Q →
  is_argsort p (l1 ++ j :: i :: l2).
Proof.
  intros [Hp Hs] Heq. split.
  { rewrite <- Hp. apply Permutation_app_head, Permutation_swap. }
  apply StronglySorted_app in Hs as (H12 & H1 & H2).
  apply StronglySorted_cons in H2 as [Hi H2].
  apply Forall_cons in Hi as [_ Hi].
  apply StronglySorted_cons in H2 as [Hj H2].
  apply StronglySorted_app. split_and!; [|done|].
  - intros x y Hx Hy. apply H12; [done|].
    rewrite !elem_of_cons in Hy |- *. tauto.
  - apply StronglySorted_cons. split.
    + constructor; [rewrite Heq; apply Qle_refl|done].
    + apply StronglySorted_cons. split; [|done].
      eapply Forall_impl; [exact Hj|]. intros k Hk. simpl in *.
      by rewrite Heq.
Qed.

(** C3, as amended: the code applies no tie-break of its own.  The
    classes visited are the last three indices of the argsort of the
    probabilities, in reverse: they are visited in descending order of
    probability, and no class left out has a higher probability than a
    visited one.  Among equal probabilities the order is the one argsort
    returns, reversed; argsort may return two tied neighbours in either
    order, and when they are among its last three indices the two orders
    give two different visits: the visit need not follow the class
    ordering. *)
Theorem ties_left_to_argsort (p : list Q) (sorted : list nat) :
  is_argsort p sorted →
  StronglySorted (λ i j, (nth j p 0 <= nth i p 0)%Q) (top_3_indices sorted) ∧
  (∀ k i, k < length p → k ∉ top_3_indices sorted →
          i ∈ top_3_indices sorted → (nth k p 0 <= nth i p 0)%Q) ∧
  (∀ l1 l2 i j, sorted = l1 ++ i :: j :: l2 → (nth i p 0 == nth j p 0)%Q →
                is_argsort p (l1 ++ j :: i :: l2) ∧
                (length l2 < 2 →
                 top_3_indices (l1 ++ j :: i :: l2) ≠ top_3_indices sorted)).
Proof.
  intros Hsorted. split_and!.
  - by apply top_3_indices_sorted.
  - intros k i. by apply top_3_indices_top.
  - intros l1 l2 i j -> Heq. split; [by apply is_argsort_swap|].
    intros Hl2.
    assert (i ≠ j) as Hne.
    { destruct Hsorted as [Hp _].
      pose proof (NoDup_seq 0 (length p)) as Hnd. rewrite <- Hp in Hnd.
      apply NoDup_app in Hnd as (_ & _ & Hnd).
      apply NoDup_cons in Hnd as [Hnd _].
      intros ->. apply Hnd, elem_of_cons. by left. }
    unfold top_3_indices, last_n. intros H%(inj reverse).
    rewrite !length_app in H. cbn [length] in H.
    apply (f_equal (λ l, l !! (length l1 - (length l1 + S (S (length l2)) - 3))))
      in H.
    rewrite !lookup_drop in H.
    replace (_ + _) with (length l1) in H by lia.
    rewrite !list_lookup_middle in H by done. congruence.
Qed.

Lemma ties_left_to_argsort_witness :
  is_argsort tied_probabilities [4; 0; 2; 3; 1] ∧
  top_3_indices [4; 0; 2; 3; 1] ≠ top_3_indices [4; 0; 2; 1; 3].
Proof.
  destruct (ties_left_to_argsort tied_probabilities [4; 0; 2; 1; 3])
    as (_ & _ & H).
  { apply (bool_decide_unpack _). vm_compute. exact I. }
  destruct (H [4; 0; 2] [] 1 3 eq_refl) as [H1 H2]; [reflexivity|].
  split; [exact H1|]. apply H2. simpl. lia.
Defined.

(** ** The matcher *)

Import Re.

Lemma or_else_some (x y : option mstate) (e : mstate) :
  or_else x y = Some e → x = Some e ∨ y = Some e.
Proof. destruct x; simpl; auto. Qed.

Lemma eat_some (p : ascii → bool) (st : mstate) k (e : mstate) :
  eat p st k = Some e →
  ∃ a s', ms_rest st = String a s' ∧ p a = true ∧
          k (MState (Some a) s' (ms_groups st)) = Some e.
Proof.
  unfold eat. destruct (ms_rest st) as [|a s']; [done|].
  destruct (p a) eqn:E; [|done]. eauto.
Qed.

(** The matcher only finds what the pattern may match. *)
Lemma rmatch_sound (r : regex) (st : mstate) k (e : mstate) :
  rmatch r st k = Some e → ∃ st', matches r st st' ∧ k st' = Some e.
Proof.
  revert st k e.
  induction r as [|c|p| |r1 IH1 r2 IH2|r1 IH1 r2 IH2|r IH|r IH|r IH|n r IH];
    intros st k e H; cbn [rmatch] in H.
  - eauto using matches.
  - apply eat_some in H as (a & s' & Hs & Hp & Hk). eauto using matches.
  - apply eat_some in H as (a & s' & Hs & Hp & Hk). eauto using matches.
  - destruct (at_boundary st) eqn:E; [|done]. eauto using matches.
  - apply IH1 in H as (st1 & H1 & H). apply IH2 in H as (st2 & H2 & H).
    eauto using matches.
  - apply or_else_some in H as [H|H].
    + apply IH1 in H as (st1 & H1 & H). eauto using matches.
    + apply IH2 in H as (st1 & H1 & H). eauto using matches.
  - apply or_else_some in H as [H|H]; [|eauto using matches].
    apply IH in H as (st1 & H1 & H). eauto using matches.
  - apply or_else_some in H as [H|H]; [eauto using matches|].
    apply IH in H as (st1 & H1 & H). eauto using matches.
  - revert H. generalize (String.length (ms_rest st)). intros fuel.
    revert st. induction fuel as [|fuel IHf]; intros st H.
    { eauto using matches. }
    apply or_else_some in H as [H|H]; [|eauto using matches].
    apply IH in H as (st1 & H1 & H).
    destruct (_ <? _); [|done].
    apply IHf in H as (st2 & H2 & H). eauto using matches.
  - apply IH in H as (st1 & H1 & H). eauto using matches.
Qed.

(** A match consumes a prefix of the text ahead. *)
Lemma matches_frame (r : regex) (st st' : mstate) :
  matches r st st' → ∃ w, ms_rest st = w +:+ ms_rest st'.
Proof.
  induction 1 as [st|c a s' st Hs _|p a s' st Hs _|st _
                 |r1 r2 st st1 st2 _ [w1 IH1] _ [w2 IH2]
                 |r1 r2 st st1 _ IH|r1 r2 st st1 _ IH
                 |r st st1 _ IH|r st|r st st1 _ IH|r st|r st
                 |r st st1 st2 _ [w1 IH1] _ [w2 IH2]|n r st st1 _ IH];
    try (by exists ""); try done.
  - exists (String a ""). by rewrite Hs.
  - exists (String a ""). by rewrite Hs.
  - exists (w1 +:+ w2). by rewrite IH1, IH2, app_assoc_string.
  - exists (w1 +:+ w2). by rewrite IH1, IH2, app_assoc_string.
Qed.

(** A pattern without groups leaves the captured groups alone. *)
Lemma matches_groups (r : regex) (st st' : mstate) :
  matches r st st' → count_groups r = 0 → ms_groups st' = ms_groups st.
Proof.
  induction 1 as [st|c a s' st Hs _|p a s' st Hs _|st _
                 |r1 r2 st st1 st2 _ IH1 _ IH2
                 |r1 r2 st st1 _ IH|r1 r2 st st1 _ IH
                 |r st st1 _ IH|r st|r st st1 _ IH|r st|r st
                 |r st st1 st2 _ IH1 _ IH2|n r st st1 _ IH];
    cbn [count_groups]; intros Hc; try done; try (apply IH; lia).
  - rewrite IH2, IH1; [done|lia..].
  - rewrite IH2, IH1; done.
Qed.

Lemma matches_star_cls (p : ascii → bool) (st st' : mstate) :
  matches (Star (Cls p)) st st' →
  ∃ w, ms_rest st = w +:+ ms_rest st' ∧ Str.all_chars p w = true.
Proof.
  remember (Star (Cls p)) as r eqn:Hr. intros H. revert Hr.
  induction H as [| | | | | | | | | | |r st|r st st1 st2 H1 _ _ IH| ];
    intros Hr; try discriminate.
  - by exists "".
  - injection Hr as ->. destruct (IH eq_refl) as (w & Hw & Hall).
    inversion H1 as [| |p' a s' st0 Hs Hp| | | | | | | | | | |]; subst.
    exists (String a w). rewrite Hs, app_cons. cbn in *. by rewrite Hw, Hp, Hall.
Qed.

Lemma matches_plus_cls (p : ascii → bool) (st st' : mstate) :
  matches (Plus (Cls p)) st st' →
  ∃ w, w ≠ "" ∧ ms_rest st = w +:+ ms_rest st' ∧ Str.all_chars p w = true.
Proof.
  unfold Plus. intros H.
  inversion H as [| | | |r1 r2 st0 st1 st2 H1 H2| | | | | | | | |]; subst.
  apply matches_star_cls in H2 as (w & Hw & Hall).
  inversion H1 as [| |p' a s' st0 Hs Hp| | | | | | | | | | |]; subst.
  exists (String a w). split; [done|]. rewrite Hs, app_cons. cbn in *.
  by rewrite Hw, Hp, Hall.
Qed.

Lemma consumed_app (w : string) (st' : mstate) :
  consumed (w +:+ ms_rest st') st' = w.
Proof.
  unfold consumed. rewrite length_app_string.
  replace (_ + _ - _) with (String.length w) by lia.
  apply take_app_string.
Qed.

Lemma int_go_digits (w : string) (acc : Z) :
  Str.all_chars Char.is_digit w = true → (0 ≤ acc)%Z →
  ∃ n, Str.int_go acc w = Ok n ∧ (0 ≤ n)%Z.
Proof.
  revert acc. induction w as [|c w IH]; intros acc Hall Hacc;
    cbn [Str.int_go]; [eauto|].
  cbn [Str.all_chars] in Hall. apply andb_true_iff in Hall as [-> Hall].
  apply IH; [done|]. lia.
Qed.

(** [int] reads every non-empty string of at most 4300 digits, as a
    number that is not negative, and refuses every longer string. *)
Lemma int_digits (w : string) :
  w ≠ "" → String.length w ≤ Str.int_max_str_digits →
  Str.all_chars Char.is_digit w = true →
  ∃ n, Str.int w = Ok n ∧ (0 ≤ n)%Z.
Proof.
  intros Hne Hlen Hall. unfold Str.int. destruct w as [|c w]; [done|].
  destruct (_ <? _) eqn:E; [apply Nat.ltb_lt in E; lia|].
  by apply int_go_digits.
Qed.

Lemma int_over_limit (w : string) :
  Str.int_max_str_digits < String.length w → Str.int w = Raise ValueError.
Proof.
  intros Hlen. unfold Str.int. destruct w as [|c w]; [done|].
  by destruct (_ <? _) eqn:E; [|apply Nat.ltb_ge in E; lia].
Qed.

Lemma search_some (r : regex) (prev : option ascii) (s : string) (f : found) :
  search r prev s = Some f →
  ∃ prev' s', match_at r prev' s' = Some (f_end f).
Proof.
  revert prev f. induction s as [|c s IH]; intros prev f; cbn [search].
  - destruct (match_at r prev "") as [e|] eqn:E; [|done].
    intros [= <-]. eauto.
  - destruct (match_at r prev (String c s)) as [e|] eqn:E.
    { intros [= <-]. eauto. }
    destruct (search r (Some c) s) as [f'|] eqn:E'; [|done].
    intros [= <-]. simpl. by eapply IH.
Qed.

Lemma findall_go_head fuel r pick prev s x l :
  findall_go fuel r pick prev s = x :: l →
  ∃ f, search r prev s = Some f ∧ x = pick f.
Proof.
  destruct fuel as [|fuel]; [done|]. cbn [findall_go].
  destruct (search r prev s) as [f|]; [|done].
  intros [= <- _]. eauto.
Qed.

Lemma findall_no_match r s :
  has_match r s = false → findall r s = [].
Proof.
  unfold has_match, findall. cbn [findall_go].
  by destruct (search r None s).
Qed.

(** The first group of a match of the experience pattern is a number. *)
(** The first group of a match of the experience pattern is a
    non-empty string of digits. *)
Lemma experience_group_digits (prev : option ascii) (s : string) (e : mstate) :
  match_at experience_re prev s = Some e →
  lookup_group 1 (ms_groups e) ≠ "" ∧
  Str.all_chars Char.is_digit (lookup_group 1 (ms_groups e)) = true.
Proof.
  intros H. apply rmatch_sound in H as (e' & H & [= ->]).
  unfold experience_re in H. cbn [Seq foldr] in H.
  inversion H as [| | | |r1 r2 st0 st1 st2 H1 H2| | | | | | | | |]; subst.
  apply matches_groups in H2; [|reflexivity]. rewrite H2.
  inversion H1 as [| | | | | | | | | | | | |n r st0 st' Hg]; subst.
  cbn [ms_groups lookup_group Nat.eqb ms_rest].
  apply matches_plus_cls in Hg as (w & Hne & Hw & Hall).
  cbn [ms_rest] in Hw. by rewrite Hw, consumed_app.
Qed.

(** [get_experience] returns a number that is not negative, except on
    a number of more than 4300 digits, where [int] raises. *)
Lemma get_experience_cases (text : string) :
  (years_digits text ≤ Str.int_max_str_digits →
   ∃ n, get_experience text = Ok n ∧ (0 ≤ n)%Z) ∧
  (Str.int_max_str_digits < years_digits text →
   get_experience text = Raise ValueError).
Proof.
  unfold get_experience, years_digits.
  destruct (findall experience_re (Str.lower text)) as [|x l] eqn:E.
  { split; [by exists 0%Z|]. unfold Str.int_max_str_digits. lia. }
  apply findall_go_head in E as (f & Hf & ->).
  apply search_some in Hf as (prev' & s' & Hm).
  apply experience_group_digits in Hm as [Hne Hall].
  split; [intros Hlen; by apply int_digits|apply int_over_limit].
Qed.

(** ** Feature encoding *)

(** C5: an encoder failure on an unseen education category is absorbed
    into a single zero column and the encoding goes on; empty skills reach
    the vectorizer as the empty string, whatever the vectorizer would do
    with the text "None". *)
Theorem encoding_fallbacks (experience_scaler : Z → res Q)
    (education_encoder : string → res Z)
    (skills_vectorizer : string → res (list Q)) (info : resume_info) :
  (education_encoder (education_input info) = Raise ValueError →
   X_education education_encoder info = Ok [[0%Z]] ∧
   resume_vectorized experience_scaler education_encoder skills_vectorizer info
   = (x_experience ← X_experience experience_scaler info;
      x_skills ← X_skills skills_vectorizer info;
      Ok (hstack3 x_experience [[0%Z]] x_skills))) ∧
  (skills info = "None" →
   skills_input info = "" ∧
   X_skills skills_vectorizer info = (row ← skills_vectorizer ""; Ok [row])) ∧
  (∀ vectorizer', (∀ s, s ≠ "None" → vectorizer' s = skills_vectorizer s) →
   X_skills vectorizer' info = X_skills skills_vectorizer info).
Proof.
  split_and!.
  - intros H. unfold resume_vectorized, X_education. rewrite H.
    split; [done|]. by destruct (X_experience experience_scaler info).
  - intros H. unfold X_skills, skills_input. by rewrite H.
  - intros v' Hv. unfold X_skills, skills_input.
    destruct (decide (skills info ≠ "None")) as [Hs|Hs]; by rewrite Hv.
Qed.

Lemma encoding_fallbacks_witness :
  X_education sample_encoder unknown_info = Ok [[0%Z]] ∧
  skills_input unknown_info = "" ∧
  resume_vectorized sample_scaler sample_encoder sample_vectorizer unknown_info
  = Ok [[0%Q / 10; 0; 0; 0]%Q].
Proof.
  destruct (encoding_fallbacks sample_scaler sample_encoder sample_vectorizer
              unknown_info) as (He & Hs & _).
  destruct (He eq_refl) as [Hx Hv]. destruct (Hs eq_refl) as [Hi _].
  split_and!; [exact Hx|exact Hi|]. rewrite Hv. reflexivity.
Defined.

(** C10: the sentinel education "Not Found" reaches the encoder as "not
    found": the column is the encoder's code for that category when it
    has one and zero when the encoder rejects it; the encoder is never
    asked about the text "Not Found". *)
Theorem not_found_education (education_encoder : string → res Z)
    (info : resume_info) :
  education_input info ≠ "Not Found" ∧
  (∀ encoder', (∀ s, s ≠ "Not Found" → encoder' s = education_encoder s) →
   X_education encoder' info = X_education education_encoder info) ∧
  (education info = "Not Found" →
   education_input info = "not found" ∧
   (∀ code, education_encoder "not found" = Ok code →
            X_education education_encoder info = Ok [[code]]) ∧
   (education_encoder "not found" = Raise ValueError →
    X_education education_encoder info = Ok [[0%Z]])).
Proof.
  assert (education_input info ≠ "Not Found") as Hne.
  { unfold education_input. by destruct (decide (education info ≠ "Not Found")). }
  split_and!; [done| |].
  - intros enc' Henc. unfold X_education. by rewrite Henc.
  - intros H.
    assert (education_input info = "not found") as Hin.
    { unfold education_input. rewrite H. reflexivity. }
    split_and!; [done| |]; unfold X_education; rewrite Hin.
    + by intros code ->.
    + by intros ->.
Qed.

Lemma not_found_education_witness :
  X_education sample_encoder empty_info = Ok [[2%Z]] ∧
  X_education blind_encoder empty_info = Ok [[0%Z]].
Proof.
  split.
  - destruct (not_found_education sample_encoder empty_info) as (_ & _ & H).
    destruct (H eq_refl) as (_ & Hcode & _). apply Hcode. reflexivity.
  - destruct (not_found_education blind_encoder empty_info) as (_ & _ & H).
    destruct (H eq_refl) as (_ & _ & Hzero). apply Hzero. reflexivity.
Defined.

(** ** Name extraction *)

Ltac by_cases_on c :=
  destruct c as [[] [] [] [] [] [] [] []]; vm_compute; congruence.

Lemma to_lower_not_upper (c : ascii) :
  Char.is_upper (Char.to_lower c) = false.
Proof. by_cases_on c. Qed.

Lemma title_char_lower (b : bool) (c : ascii) :
  Char.is_lower (if b then Char.to_lower c else Char.to_upper c) = true →
  Char.is_alpha c = true.
Proof. destruct b; by_cases_on c. Qed.

(** Title-casing leaves no lower-case letter directly before an
    upper-case one. *)
Lemma title_go_camel_free (b : bool) (s : string) :
  camel_free (Str.title_go b s) = true.
Proof.
  revert b. induction s as [|a s IH]; intros b; [done|].
  destruct s as [|x s]; [done|].
  specialize (IH (Char.is_alpha a)).
  cbn [Str.title_go camel_free] in *. rewrite IH, andb_true_r.
  apply negb_true_iff, andb_false_iff.
  destruct (Char.is_lower (if b then _ else _)) eqn:E; [right|by left].
  rewrite (title_char_lower _ _ E). apply to_lower_not_upper.
Qed.

Lemma match_at_camel (prev : option ascii) (s : string) :
  camel_free s = true → match_at camel_re prev s = None.
Proof.
  destruct s as [|a [|b s]]; [done| |].
  - intros _. unfold match_at. cbn. unfold eat. cbn.
    by destruct (Char.is_lower a).
  - cbn [camel_free]. intros [Hab _]%andb_true_iff.
    apply negb_true_iff in Hab.
    unfold match_at. cbn. unfold eat. cbn.
    destruct (Char.is_lower a); [|done]. cbn in *. by rewrite Hab.
Qed.

Lemma camel_free_tail (a : ascii) (s : string) :
  camel_free (String a s) = true → camel_free s = true.
Proof. destruct s; [done|]. cbn [camel_free]. by intros [_ ?]%andb_true_iff. Qed.

Lemma search_camel (prev : option ascii) (s : string) :
  camel_free s = true → search camel_re prev s = None.
Proof.
  revert prev. induction s as [|a s IH]; intros prev Hs; cbn [search].
  - by rewrite match_at_camel.
  - rewrite match_at_camel by done.
    by rewrite IH by (by eapply camel_free_tail).
Qed.

Lemma sub_camel_free (s : string) :
  camel_free s = true → sub camel_re camel_repl s = s.
Proof. intros Hs. unfold sub. cbn [sub_go]. by rewrite search_camel. Qed.

(** The name is the first non-blank line, trimmed and title-cased; the
    substitution that follows never finds a place for a space. *)
Lemma get_name_title (text : string) :
  get_name text =
  match first_nonblank_line text with
  | Some line => Str.title (Str.strip line)
  | None => "Not Found"
  end.
Proof.
  unfold get_name, first_nonblank_line.
  induction (Str.split Char.newline text) as [|line lines IH]; [done|].
  cbn [get_name_loop List.find].
  destruct (Str.strip line) as [|c s] eqn:E; [done|].
  cbn [String.eqb negb]. rewrite E.
  apply sub_camel_free, title_go_camel_free.
Qed.

(** C2: on the line "JohnSmith" the code returns "Johnsmith": the line
    is title-cased before the word-boundary substitution runs, and a
    title-cased string has no boundary left to find. *)
Theorem get_name_concatenated :
  first_nonblank_line "JohnSmith" = Some "JohnSmith" ∧
  get_name "JohnSmith" = "Johnsmith" ∧
  get_name "JohnSmith" ≠ "John Smith" ∧
  ∀ line, sub camel_re camel_repl (Str.title line) = Str.title line.
Proof.
  split_and!; [reflexivity..|discriminate|].
  intros line. apply sub_camel_free, title_go_camel_free.
Qed.

(** ** Education extraction *)

Lemma sentence_sep_lower (c : ascii) :
  sentence_sep (Char.to_lower c) = sentence_sep c.
Proof. by_cases_on c. Qed.

Lemma length_lower (s : string) :
  String.length (Str.lower s) = String.length s.
Proof. induction s as [|c s IH]; [done|]. simpl. by rewrite IH. Qed.

(** The lower-case copy splits into the lower-case copies of the
    units, position by position. *)
Lemma split_on_lower (s : string) :
  Str.split_on sentence_sep (Str.lower s)
  = Str.lower <$> Str.split_on sentence_sep s.
Proof.
  induction s as [|c s IH]; [done|].
  cbn [Str.lower Str.split_on]. rewrite sentence_sep_lower, IH.
  destruct (sentence_sep c); [done|].
  by destruct (Str.split_on sentence_sep s).
Qed.

Lemma scan_sentences_units (degree : string) (pre units info : list string) :
  scan_sentences degree (pre ++ units)
    (zip (seq (length pre) (length units)) (Str.lower <$> units)) info
  = Ok (info ++ match List.find (qualifies degree) units with
                | Some unit => [Str.title (Str.strip unit)]
                | None => []
                end).
Proof.
  revert pre. induction units as [|u units IH]; intros pre.
  { simpl. by rewrite app_nil_r. }
  cbn [length seq fmap list_fmap zip zip_with scan_sentences List.find].
  rewrite length_lower. fold (qualifies degree u).
  destruct (qualifies degree u).
  - unfold getitem. by rewrite list_lookup_middle.
  - specialize (IH (pre ++ [u])).
    rewrite <- app_assoc, length_app in IH. cbn [length app] in IH.
    by rewrite Nat.add_1_r in IH.
Qed.

Lemma scan_degrees_first (text : string) (ds : list string) :
  scan_degrees (Str.lower text) text ds []
  = Ok match List.find (λ degree, Str.contains degree (Str.lower text)) ds with
       | None => []
       | Some degree =>
           match List.find (qualifies degree)
                           (Str.split_on sentence_sep text) with
           | Some unit => [Str.title (Str.strip unit)]
           | None => []
           end
       end.
Proof.
  induction ds as [|d ds IH]; [done|].
  cbn [scan_degrees List.find].
  destruct (Str.contains d (Str.lower text)); [|done].
  unfold enumerate. rewrite split_on_lower, length_fmap.
  apply (scan_sentences_units d []).
Qed.

Lemma get_education_trimmed (text : string) :
  get_education text = Ok (education_trimmed text).
Proof.
  unfold get_education, education_trimmed, first_keyword, first_unit.
  rewrite scan_degrees_first. cbn [mbind res_bind].
  destruct (List.find _ degrees) as [d|]; [|done].
  by destruct (List.find (qualifies d) _).
Qed.

(** C4, as amended: only the first keyword (in list order) that occurs
    in the lower-cased text is tried; the result is the first unit
    shorter than 200 characters that contains it, with the whitespace
    around the unit removed and then title-cased; when no unit qualifies
    for that keyword the result is "Not Found", whatever later keywords
    would find. *)
Theorem get_education_first_keyword (text : string) :
  get_education text = Ok (education_trimmed text) ∧
  (∀ degree, first_keyword text = Some degree →
             first_unit degree text = None →
             get_education text = Ok "Not Found").
Proof.
  split; [apply get_education_trimmed|].
  intros degree Hk Hu. rewrite get_education_trimmed.
  unfold education_trimmed. by rewrite Hk, Hu.
Qed.

Lemma get_education_first_keyword_witness :
  get_education long_resume = Ok "Not Found" ∧
  first_unit "diploma" long_resume = Some "diploma in arts".
Proof.
  split; [|reflexivity].
  destruct (get_education_first_keyword long_resume) as [_ H].
  apply (H "phd"); reflexivity.
Defined.

(** C4, as stated, fails: the unit is not returned title-cased as it
    stands, the whitespace around it is removed. *)
Lemma get_education_not_described :
  get_education " bachelor" = Ok "Bachelor" ∧
  education_described " bachelor" = " Bachelor" ∧
  get_education " bachelor" ≠ Ok (education_described " bachelor").
Proof. split_and!; [reflexivity..|discriminate]. Qed.

(** ** The whole profile *)

Lemma find_none {A} (f : A → bool) (l : list A) :
  (∀ x, x ∈ l → f x = false) → List.find f l = None.
Proof.
  induction l as [|x l IH]; intros H; [done|]. simpl.
  rewrite (H x) by (apply elem_of_cons; by left).
  apply IH. intros y Hy. apply H, elem_of_cons. by right.
Qed.

Lemma filter_none {A} (f : A → bool) (l : list A) :
  (∀ x, x ∈ l → f x = false) → List.filter f l = [].
Proof.
  induction l as [|x l IH]; intros H; [done|]. simpl.
  rewrite (H x) by (apply elem_of_cons; by left).
  apply IH. intros y Hy. apply H, elem_of_cons. by right.
Qed.

(** C6, as amended: on a text with no email match, no phone match, no
    degree keyword, no skill keyword and no years phrase, extraction
    raises nothing and the fields are the name taken from the first
    non-blank line (or "Not Found") and the defaults "Not Found", "Not
    Found", "Not Found", 0 and "None"; every field is populated for
    every text whose number before "year" or "years", if there is one,
    has at most 4300 digits. *)
Theorem extract_resume_info_defaults (text : string) :
  (years_digits text ≤ Str.int_max_str_digits →
   ∃ info, extract_resume_info text = Ok info) ∧
  (has_match email_re text = false →
   has_match phone_re text = false →
   (∀ degree, degree ∈ degrees →
              Str.contains degree (Str.lower text) = false) →
   (∀ word, word ∈ keywords →
            has_match (skill_re word) (Str.lower text) = false) →
   has_match experience_re (Str.lower text) = false →
   extract_resume_info text
   = Ok (ResumeInfo
           match first_nonblank_line text with
           | Some line => Str.title (Str.strip line)
           | None => "Not Found"
           end
           "Not Found" "Not Found" "Not Found" 0 "None")).
Proof.
  split.
  - intros Hlen. unfold extract_resume_info. rewrite get_education_trimmed.
    destruct (get_experience_cases text) as [H _].
    destruct (H Hlen) as (n & -> & _).
    cbn [mbind res_bind]. eauto.
  - intros Hemail Hphone Hdegree Hskill Hexp.
    unfold extract_resume_info. rewrite get_education_trimmed, get_name_title.
    unfold get_email, get_phone, get_experience, get_skills, education_trimmed,
      first_keyword.
    rewrite (findall_no_match _ _ Hemail), (findall_no_match _ _ Hphone),
      (findall_no_match _ _ Hexp), (find_none _ _ Hdegree),
      (filter_none _ _ Hskill).
    reflexivity.
Qed.

Lemma extract_resume_info_defaults_witness :
  (∃ info, extract_resume_info sample_resume = Ok info) ∧
  extract_resume_info plain_resume
  = Ok (ResumeInfo "Jane Doe" "Not Found" "Not Found" "Not Found" 0 "None").
Proof.
  split.
  { destruct (extract_resume_info_defaults sample_resume) as [H _].
    apply H. vm_compute. lia. }
  destruct (extract_resume_info_defaults plain_resume) as [_ H].
  apply H; try reflexivity.
  - intros degree Hd. unfold degrees in Hd.
    repeat (apply elem_of_cons in Hd as [->|Hd]; [reflexivity|]).
    by apply elem_of_nil in Hd.
  - intros word Hw. unfold keywords in Hw.
    repeat (apply elem_of_cons in Hw as [->|Hw]; [reflexivity|]).
    by apply elem_of_nil in Hw.
Defined.

(** C6, as stated, fails: on 4301 nines followed by " years" the
    experience pattern matches, [int] refuses the 4301 digits and the
    extraction raises [ValueError] instead of returning a profile. *)
Lemma extract_resume_info_raises :
  years_digits long_years = 4301 ∧
  get_experience long_years = Raise ValueError ∧
  extract_resume_info long_years = Raise ValueError.
Proof. vm_compute. done. Qed.
